(** * SentinelBot scan orchestration engine: a shallow embedding

    The development follows the services of the backend:

    - [services/aiAnalyzer.js] (class [AIVulnerabilityAnalyzer], which the
      source tree holds in [backend/src/services/reportService.js] after the
      report service): the risk classification of one raw finding;
    - [services/scannerService.js] (class [ScannerService]): the tool adapters,
      their simulated result sets and the parsers of the Nikto and sqlmap
      output;
    - [services/queueService.js]: the BullMQ worker handler, [executeScan] and
      the queue's retry options;

    and, of [services/reportService.js] (class [ReportService]), the
    summaries, the recommendations and the escaping of CSV fields.

    JavaScript numbers are IEEE 754 binary64 values, embedded as Rocq's
    primitive floats, so that [5.3 * 1.2] here is the very double the
    analyzer computes.  JavaScript values that may have any dynamic type are
    embedded as [jsval]; exceptions are explicit ([result], [Throw]). *)

From Stdlib Require Import Floats ZArith String Ascii List Bool Arith Lia.
From Stdlib Require Import DecimalString.
Import ListNotations.

Set Warnings "-inexact-float,-register-all".
Set Implicit Arguments.

Open Scope string_scope.

(** ** JavaScript values *)

Module JS.

(** The JSON-like values a raw finding carries.  [JUndefined] is a missing
    property. *)
Inductive jsval : Type :=
| JUndefined
| JNull
| JBool (b : bool)
| JNum (x : float)
| JStr (s : string)
| JObj (fields : list (string * jsval)).

(** A thrown [Error]; only its [message] is ever read by the engine. *)
Record Error : Type := MkError { message : string }.

Inductive result (A : Type) : Type :=
| Ok (a : A)
| Throw (e : Error).
Arguments Ok {A} a.
Arguments Throw {A} e.

Definition rbind {A B} (r : result A) (k : A -> result B) : result B :=
  match r with
  | Ok a => k a
  | Throw e => Throw e
  end.

(** [try { body } catch (error) { handler }] for pure code. *)
Definition try_catch {A} (body : result A) (handler : Error -> result A)
  : result A :=
  match body with
  | Ok a => Ok a
  | Throw e => handler e
  end.

(** ToBoolean. *)
Definition truthy (v : jsval) : bool :=
  match v with
  | JUndefined | JNull => false
  | JBool b => b
  | JNum x => negb (PrimFloat.eqb x 0 || PrimFloat.is_nan x)
  | JStr s => negb (String.eqb s "")
  | JObj _ => true
  end.

(** [v === 'lit'] and [v === n]. *)
Definition strict_eq_str (v : jsval) (lit : string) : bool :=
  match v with
  | JStr s => String.eqb s lit
  | _ => false
  end.

Definition strict_eq_num (v : jsval) (n : float) : bool :=
  match v with
  | JNum x => PrimFloat.eqb x n
  | _ => false
  end.

(** [[...].includes(v)] on arrays of number and of string literals (none of
    the literals is NaN, so SameValueZero is [===]). *)
Definition array_includes_num (l : list float) (v : jsval) : bool :=
  existsb (strict_eq_num v) l.

Definition array_includes_str (l : list string) (v : jsval) : bool :=
  existsb (strict_eq_str v) l.

(** [String.prototype.toLowerCase] on the ASCII letters. *)
Definition lower_ascii (c : ascii) : ascii :=
  let n := nat_of_ascii c in
  if (65 <=? n)%nat && (n <=? 90)%nat then ascii_of_nat (n + 32) else c.

Fixpoint toLowerCase (s : string) : string :=
  match s with
  | EmptyString => EmptyString
  | String c s' => String (lower_ascii c) (toLowerCase s')
  end.

(** [String.prototype.includes]. *)
Fixpoint includes (s needle : string) : bool :=
  if String.prefix needle s then true
  else match s with
       | EmptyString => false
       | String _ s' => includes s' needle
       end.

(** [v?.toLowerCase().includes(needle)]: the optional chain yields
    [undefined] (falsy) on [null] and [undefined]; on a value that is not a
    string [toLowerCase] is not a function and the call throws. *)
Definition lowerIncludes (v : jsval) (needle : string) : result bool :=
  match v with
  | JUndefined | JNull => Ok false
  | JStr s => Ok (includes (toLowerCase s) needle)
  | _ => Throw (MkError "toLowerCase is not a function")
  end.

(** [a || b] on results: [b] is not evaluated when [a] is true. *)
Definition orElse (a b : result bool) : result bool :=
  rbind a (fun x => if x then Ok true else b).

(** Template-literal rendering of an integer. *)
Definition string_of_Z (z : Z) : string :=
  NilZero.string_of_int (Z.to_int z).

(** The string a template literal or a concatenation builds: literal
    characters and, where a number was converted, its decimal text
    (Number::toString), which is kept as the number itself. *)
Inductive piece : Type :=
| Chars (s : string)
| NumberText (x : float).

Definition text : Type := list piece.

(** Whether a plain object has the own property [name]. *)
Definition hasOwnProperty (fields : list (string * jsval)) (name : string)
  : bool :=
  existsb (fun kv => String.eqb (fst kv) name) fields.

(** ToString, as a template literal applies it to a substitution.  An object
    is a plain object: its prototype is Object.prototype and no property of
    it is a function.  Without an own [toString] the inherited one gives
    [[object Object]]; with one, which is not callable, neither [toString]
    nor [valueOf] yields a primitive and the conversion throws a
    TypeError. *)
Definition ToString (v : jsval) : result text :=
  match v with
  | JUndefined => Ok [Chars "undefined"]
  | JNull => Ok [Chars "null"]
  | JBool b => Ok [Chars (if b then "true" else "false")]
  | JNum x => Ok [NumberText x]
  | JStr s => Ok [Chars s]
  | JObj fields =>
      if hasOwnProperty fields "toString"
      then Throw (MkError "Cannot convert object to primitive value")
      else Ok [Chars "[object Object]"]
  end.

(** [Array.prototype.join] on an array of strings. *)
Definition join (separator : string) (items : list text) : text :=
  match items with
  | [] => []
  | first :: others =>
      (first ++ flat_map (fun item => Chars separator :: item) others)%list
  end.

(** *** Math *)

Definition two52 : float := 4503599627370496%float.

(** [Math.floor] on [0 <= x < 2^52]. *)
Definition floor_nonneg (x : float) : float :=
  let r := ((x + two52) - two52)%float in
  if (x <? r)%float then (r - 1)%float else r.

(** [Math.round]: the nearest integer, ties towards +infinity. *)
Definition Math_round (x : float) : float :=
  if PrimFloat.is_nan x then x
  else if (two52 <=? PrimFloat.abs x)%float then x
  else if (0 <=? x)%float then
    let r := floor_nonneg x in
    if (0.5 <=? x - r)%float then (r + 1)%float else r
  else
    let y := (- x)%float in
    let r := floor_nonneg y in
    if (0.5 <? y - r)%float then (- (r + 1))%float else (- r)%float.

Definition Math_min (a b : float) : float :=
  if PrimFloat.is_nan a then a
  else if PrimFloat.is_nan b then b
  else if (a <? b)%float then a
  else if (b <? a)%float then b
  else if PrimFloat.get_sign a then a else b.

End JS.
Import JS.

(** ** Raw findings ([scanResult] objects) *)

Record RawFinding : Type := MkRawFinding {
  vulnerability_type : jsval;
  title : jsval;
  description : jsval;
  port : jsval;
  service : jsval;
  version : jsval;
  protocol : jsval;
  cve_id : jsval;
  affected_component : jsval;
  raw_output : jsval
}.

(** ** The vulnerability analyzer ([AIVulnerabilityAnalyzer]) *)

Inductive RiskLevel : Type := info | low | medium | high | critical.

(** The keys of [vulnerabilityDatabase], which are also the values returned
    by [identifyVulnerabilityPattern]. *)
Inductive Pattern : Type :=
| ssh_open
| http_server_outdated
| ssl_weak_cipher
| database_exposed
| sql_injection
| xss_vulnerability
| open_port.

(** An entry of [vulnerabilityDatabase] (the [baseAnalysis] argument). *)
Module Profile.
Record t : Type := Make {
  risk_level : RiskLevel;
  base_cvss : float;
  description : string;
  fix_suggestions : list string
}.
End Profile.

Definition vulnerabilityDatabase (p : Pattern) : Profile.t :=
  match p with
  | ssh_open =>
      Profile.Make medium 5.3
        "SSH service is exposed and accessible from external networks"
        [ "Restrict SSH access to specific IP ranges using firewall rules";
          "Implement fail2ban to prevent brute force attacks";
          "Use key-based authentication instead of passwords";
          "Change SSH port from default 22 to a non-standard port";
          "Disable root login via SSH" ]
  | http_server_outdated =>
      Profile.Make high 7.5
        "Web server is running an outdated version with known security vulnerabilities"
        [ "Update web server to the latest stable version";
          "Apply all available security patches";
          "Review and harden server configuration";
          "Implement Web Application Firewall (WAF)";
          "Regular security updates and monitoring" ]
  | ssl_weak_cipher =>
      Profile.Make low 3.7
        "Server supports weak SSL/TLS cipher suites that could be exploited"
        [ "Disable weak cipher suites (RC4, DES, 3DES)";
          "Enable only strong encryption algorithms (AES)";
          "Use TLS 1.2 or higher versions only";
          "Implement Perfect Forward Secrecy (PFS)";
          "Regular SSL/TLS configuration audits" ]
  | database_exposed =>
      Profile.Make high 8.1
        "Database service is accessible from external networks"
        [ "Restrict database access to application servers only";
          "Use VPN for remote database administration";
          "Implement database firewall rules";
          "Enable database encryption at rest and in transit";
          "Regular database security audits" ]
  | sql_injection =>
      Profile.Make critical 9.8
        "Application is vulnerable to SQL injection attacks"
        [ "Use parameterized queries and prepared statements";
          "Implement input validation and sanitization";
          "Apply principle of least privilege for database users";
          "Use stored procedures where appropriate";
          "Regular code security reviews and testing" ]
  | xss_vulnerability =>
      Profile.Make medium 6.1
        "Application is vulnerable to Cross-Site Scripting (XSS) attacks"
        [ "Implement proper input validation and output encoding";
          "Use Content Security Policy (CSP) headers";
          "Sanitize user input before displaying";
          "Use secure coding practices for web development";
          "Regular security testing and code reviews" ]
  | open_port =>
      Profile.Make info 0.0
        "Network service detected on open port"
        [ "Review if this service is necessary";
          "Implement access controls if service is required";
          "Monitor service for security updates";
          "Consider using VPN for sensitive services" ]
  end.

(** [identifyVulnerabilityPattern]: the ordered rule set.  The optional
    chains throw on a [vulnerability_type], [title] or [description] that is
    neither a string nor nullish. *)
Definition identifyVulnerabilityPattern (scanResult : RawFinding)
  : result Pattern :=
  let vt := vulnerability_type scanResult in
  let ti := title scanResult in
  let de := description scanResult in
  let po := port scanResult in
  let se := service scanResult in
  rbind (orElse (lowerIncludes vt "sql") (lowerIncludes ti "sql injection"))
  (fun is_sql =>
  if is_sql then Ok sql_injection else
  rbind (orElse (lowerIncludes vt "xss")
                (lowerIncludes ti "cross-site scripting"))
  (fun is_xss =>
  if is_xss then Ok xss_vulnerability else
  if strict_eq_str se "ssh" || strict_eq_num po 22 then Ok ssh_open else
  rbind (if strict_eq_str se "http" || strict_eq_str se "https"
            || strict_eq_num po 80 || strict_eq_num po 443
         then orElse (lowerIncludes de "outdated")
                     (lowerIncludes de "vulnerable version")
         else Ok false)
  (fun is_outdated =>
  if is_outdated then Ok http_server_outdated else
  rbind (orElse (lowerIncludes vt "ssl") (lowerIncludes vt "tls"))
  (fun is_ssl =>
  if is_ssl then Ok ssl_weak_cipher else
  if strict_eq_str se "mysql" || strict_eq_str se "postgresql"
     || strict_eq_str se "mssql"
     || strict_eq_num po 3306 || strict_eq_num po 5432
     || strict_eq_num po 1433
  then Ok database_exposed
  else Ok open_port)))).

(** The value returned by [calculateContextualRisk]. *)
Module ContextualRisk.
Record t : Type := Make {
  risk_level : RiskLevel;
  cvss_score : float
}.
End ContextualRisk.

(** The [riskMultiplier] variable of [calculateContextualRisk] after the
    three context adjustments. *)
Definition riskMultiplier (scanResult : RawFinding) : float :=
  let m0 := 1.0%float in
  let m1 := if truthy (port scanResult)
               && array_includes_num [22; 23; 3389]%float (port scanResult)
            then (m0 + 0.2)%float else m0 in
  let m2 := if truthy (service scanResult)
               && array_includes_str ["mysql"; "postgresql"; "mssql"]
                                     (service scanResult)
            then (m1 + 0.3)%float else m1 in
  if truthy (cve_id scanResult) then (m2 + 0.4)%float else m2.

(** [cvssScore] after [Math.min(cvssScore * riskMultiplier, 10.0)]: the
    multiplied and capped score, before the final rounding. *)
Definition cappedScore (scanResult : RawFinding) (baseAnalysis : Profile.t)
  : float :=
  Math_min (Profile.base_cvss baseAnalysis * riskMultiplier scanResult) 10.0.

Definition calculateContextualRisk (scanResult : RawFinding)
    (baseAnalysis : Profile.t) : ContextualRisk.t :=
  let cvssScore := cappedScore scanResult baseAnalysis in
  let riskLevel :=
    if (9.0 <=? cvssScore)%float then critical
    else if (7.0 <=? cvssScore)%float then high
    else if (4.0 <=? cvssScore)%float then medium
    else if (0.1 <=? cvssScore)%float then low
    else info in
  ContextualRisk.Make riskLevel (Math_round (cvssScore * 10) / 10)%float.

Definition assessImpact (riskLevel : RiskLevel) : string :=
  match riskLevel with
  | critical => "Complete system compromise, data breach, or service disruption highly likely"
  | high => "Significant security risk with potential for unauthorized access or data exposure"
  | medium => "Moderate security risk that could lead to limited unauthorized access"
  | low => "Minor security concern with limited potential impact"
  | info => "Informational finding for security awareness"
  end.

Definition calculateRemediationPriority (contextualRisk : ContextualRisk.t)
  : string :=
  match ContextualRisk.risk_level contextualRisk with
  | critical => "Immediate (within 24 hours)"
  | high => "High (within 1 week)"
  | medium => "Medium (within 1 month)"
  | low => "Low (within 3 months)"
  | info => "Informational (as time permits)"
  end.

Definition getReferences (pattern : Pattern) : list string :=
  match pattern with
  | ssh_open =>
      [ "https://www.ssh.com/academy/ssh/security";
        "https://nvd.nist.gov/vuln/search/results?form_type=Basic&results_type=overview&query=SSH" ]
  | sql_injection =>
      [ "https://owasp.org/www-community/attacks/SQL_Injection";
        "https://cwe.mitre.org/data/definitions/89.html" ]
  | xss_vulnerability =>
      [ "https://owasp.org/www-community/attacks/xss/";
        "https://cwe.mitre.org/data/definitions/79.html" ]
  | _ => []
  end.

Definition calculateConfidenceScore (scanResult : RawFinding) : float :=
  let c0 := 0.7%float in
  let c1 := if truthy (cve_id scanResult) then (c0 + 0.2)%float else c0 in
  let c2 := if truthy (service scanResult) then (c1 + 0.1)%float else c1 in
  let c3 := if truthy (version scanResult) then (c2 + 0.1)%float else c2 in
  Math_min c3 1.0.

(** A title is a property of the finding, returned as it is, or a string
    the analyzer built. *)
Inductive Title : Type :=
| TitleValue (v : jsval)
| TitleText (t : text).

(** [generateTitle]: the template literal of the [ssh_open] case converts
    [scanResult.port || 22] to a string. *)
Definition generateTitle (scanResult : RawFinding) (pattern : Pattern)
  : result Title :=
  let baseTitle :=
    if truthy (title scanResult) then title scanResult
    else if truthy (vulnerability_type scanResult)
         then vulnerability_type scanResult
    else JStr "Security Finding" in
  match pattern with
  | ssh_open =>
      rbind (ToString (if truthy (port scanResult) then port scanResult
                       else JNum 22))
      (fun p => Ok (TitleText (Chars "SSH Service Exposed on Port " :: p)))
  | database_exposed =>
      Ok (TitleText
            [Chars "Database Service Accessible from External Networks"])
  | _ => Ok (TitleValue baseTitle)
  end.

(** [generateDescription]: the two template literals convert the service,
    [scanResult.port || 'unknown'] and the CVE id. *)
Definition generateDescription (scanResult : RawFinding)
    (baseAnalysis : Profile.t) : result text :=
  let description := [Chars (Profile.description baseAnalysis)] in
  rbind (if truthy (service scanResult) then
           rbind (ToString (service scanResult)) (fun s =>
           rbind (ToString (if truthy (port scanResult) then port scanResult
                            else JStr "unknown")) (fun p =>
           Ok (description ++ [Chars " The "] ++ s
               ++ [Chars " service is running on port "] ++ p
               ++ [Chars "."])%list))
         else Ok description)
  (fun description =>
  if truthy (cve_id scanResult) then
    rbind (ToString (cve_id scanResult)) (fun c =>
    Ok (description ++ [Chars " This finding is associated with "] ++ c
        ++ [Chars "."])%list)
  else Ok description).

(** The separator of [generateFixSuggestion]: a line feed, the bytes the
    source file holds for the bullet, and a space. *)
Definition bullet_separator : string :=
  String "010" (String "195" (String "162" (String "226" (String "130"
    (String "172" (String "194" (String "162" (String " " EmptyString)))))))).

(** [generateFixSuggestion]: the template literal converts the port. *)
Definition generateFixSuggestion (scanResult : RawFinding)
    (baseAnalysis : Profile.t) : result text :=
  let suggestions :=
    map (fun s => [Chars s]) (Profile.fix_suggestions baseAnalysis) in
  rbind (if truthy (port scanResult) then
           rbind (ToString (port scanResult)) (fun p =>
           Ok (suggestions
               ++ [[Chars "Consider changing the service from default port "]
                   ++ p ++ [Chars " if possible"]])%list)
         else Ok suggestions)
  (fun suggestions => Ok (join bullet_separator suggestions)).

(** The analysis object, its properties in the order the object literal of
    [performAnalysis] evaluates them.  [technical_details], which copies
    properties of the finding and cannot throw, is not kept. *)
Module Analysis.
Record t : Type := Make {
  risk_level : RiskLevel;
  cvss_score : float;
  title : Title;
  description : text;
  fix_suggestion : text;
  impact_assessment : string;
  remediation_priority : string;
  references : list string;
  confidence_score : float
}.
End Analysis.

Definition performAnalysis (scanResult : RawFinding) : result Analysis.t :=
  rbind (identifyVulnerabilityPattern scanResult) (fun pattern =>
  let baseAnalysis := vulnerabilityDatabase pattern in
  let contextualRisk := calculateContextualRisk scanResult baseAnalysis in
  rbind (generateTitle scanResult pattern) (fun title =>
  rbind (generateDescription scanResult baseAnalysis) (fun description =>
  rbind (generateFixSuggestion scanResult baseAnalysis) (fun fix_suggestion =>
  Ok (Analysis.Make
        (ContextualRisk.risk_level contextualRisk)
        (ContextualRisk.cvss_score contextualRisk)
        title
        description
        fix_suggestion
        (assessImpact (ContextualRisk.risk_level contextualRisk))
        (calculateRemediationPriority contextualRisk)
        (getReferences pattern)
        (calculateConfidenceScore scanResult)))))).

Definition getFallbackAnalysis (scanResult : RawFinding) : Analysis.t :=
  Analysis.Make info 0.0
    (TitleValue (if truthy (title scanResult) then title scanResult
                 else JStr "Security Finding"))
    [Chars "A security finding was detected but could not be fully analyzed."]
    [Chars "Review this finding manually and apply appropriate security measures."]
    "Impact assessment unavailable"
    "Manual review required"
    []
    0.3.

(** [analyzeVulnerability]: the awaited delay has no effect on the value. *)
Definition analyzeVulnerability (scanResult : RawFinding)
  : result Analysis.t :=
  try_catch (performAnalysis scanResult)
            (fun error => Ok (getFallbackAnalysis scanResult)).

(** ** The tool adapters ([ScannerService]) *)

Inductive Tool : Type := nmap | nikto | sqlmap | zap.

(** How the spawned process of [executeCommand] ends: the ['close'] event
    with an exit code, the timer firing first, or the ['error'] event. *)
Inductive ProcessOutcome : Type :=
| Exited (code : Z) (stdout stderr : string)
| TimedOut
| SpawnError (e : Error).

Definition executeCommand (timeout : Z) (p : ProcessOutcome) : result string :=
  match p with
  | Exited code stdout stderr =>
      if (code =? 0)%Z then Ok stdout
      else Throw (MkError ("Command failed with code " ++ string_of_Z code
                           ++ ": " ++ stderr))
  | TimedOut =>
      Throw (MkError ("Command timeout after " ++ string_of_Z timeout ++ "ms"))
  | SpawnError e => Throw e
  end.

(** What the outside world answers to one adapter invocation: the fate of
    the process, and what reading and parsing the tool's report file yields
    once the command has succeeded ([fs.readFile] then [parseNmapXML], or
    [parseNiktoOutput]), which may itself throw. *)
Record ToolRun : Type := MkToolRun {
  process : ProcessOutcome;
  report : result (list RawFinding)
}.

Definition getSimulatedNmapResults (target : string) : list RawFinding :=
  [ MkRawFinding (JStr "Open Port") (JStr "SSH Service on Port 22") JUndefined
      (JNum 22) (JStr "ssh") (JStr "OpenSSH 8.2p1") (JStr "tcp") JUndefined
      (JStr (target ++ ":22"))
      (JObj [ ("host", JStr target); ("port", JNum 22);
              ("protocol", JStr "tcp"); ("state", JStr "open");
              ("service", JObj [ ("name", JStr "ssh");
                                 ("version", JStr "OpenSSH 8.2p1") ]) ]);
    MkRawFinding (JStr "Open Port") (JStr "HTTP Service on Port 80") JUndefined
      (JNum 80) (JStr "http") (JStr "Apache 2.4.29") (JStr "tcp") JUndefined
      (JStr (target ++ ":80"))
      (JObj [ ("host", JStr target); ("port", JNum 80);
              ("protocol", JStr "tcp"); ("state", JStr "open");
              ("service", JObj [ ("name", JStr "http");
                                 ("version", JStr "Apache 2.4.29") ]) ]) ].

Definition getSimulatedNiktoResults (target : string) : list RawFinding :=
  [ MkRawFinding (JStr "Web Vulnerability")
      (JStr "Server Information Disclosure")
      (JStr "Server version information is disclosed in HTTP headers")
      (JNum 80) (JStr "http") JUndefined JUndefined JUndefined JUndefined
      (JObj [ ("nikto_line", JStr "+ Server: Apache/2.4.29 (Ubuntu)") ]);
    MkRawFinding (JStr "Web Vulnerability")
      (JStr "Directory Listing Enabled")
      (JStr "Directory listing is enabled on /uploads/ directory")
      (JNum 80) (JStr "http") JUndefined JUndefined JUndefined JUndefined
      (JObj [ ("nikto_line", JStr "+ /uploads/: Directory indexing found.") ]) ].

Definition getSimulatedSqlmapResults (target : string) : list RawFinding :=
  [ MkRawFinding (JStr "SQL Injection") (JStr "SQL Injection in Login Form")
      (JStr "Time-based blind SQL injection vulnerability detected in login parameter")
      JUndefined JUndefined JUndefined JUndefined (JStr "CVE-2021-44228")
      JUndefined
      (JObj [ ("sqlmap_output",
               JStr ("Parameter: username (POST)" ++ String "010" "Type: time-based blind")) ]) ].

Definition getSimulatedZapResults (target : string) : list RawFinding :=
  [ MkRawFinding (JStr "XSS") (JStr "Cross-Site Scripting (XSS) Vulnerability")
      (JStr "Reflected XSS vulnerability found in search parameter")
      (JNum 80) (JStr "http") JUndefined JUndefined JUndefined JUndefined
      (JObj [ ("zap_finding", JStr "XSS detected in search parameter") ]) ].

Definition parseSqlmapOutput (output : string) : list RawFinding :=
  if includes output "sqlmap identified the following injection point"
  then [ MkRawFinding (JStr "SQL Injection")
           (JStr "SQL Injection Vulnerability Detected")
           (JStr "SQLMap detected potential SQL injection vulnerabilities")
           JUndefined JUndefined JUndefined JUndefined JUndefined JUndefined
           (JObj [ ("sqlmap_output", JStr output) ]) ]
  else [].

(** The adapters.  The command line built from [target] and [options] only
    reaches the spawned process, whose behaviour is the [ToolRun]. *)
Definition runNmapScan (target : string) (run : ToolRun)
  : result (list RawFinding) :=
  try_catch
    (rbind (executeCommand 300000 (process run)) (fun output => report run))
    (fun err => Ok (getSimulatedNmapResults target)).

Definition runNiktoScan (target : string) (run : ToolRun)
  : result (list RawFinding) :=
  try_catch
    (rbind (executeCommand 600000 (process run)) (fun output => report run))
    (fun err => Ok (getSimulatedNiktoResults target)).

Definition runSqlmapScan (target : string) (run : ToolRun)
  : result (list RawFinding) :=
  try_catch
    (rbind (executeCommand 900000 (process run))
           (fun output => Ok (parseSqlmapOutput output)))
    (fun err => Ok (getSimulatedSqlmapResults target)).

(** [runZapScan] spawns nothing. *)
Definition runZapScan (target : string) (run : ToolRun)
  : result (list RawFinding) :=
  try_catch (Ok (getSimulatedZapResults target))
            (fun err => Ok (getSimulatedZapResults target)).

Definition runAdapter (tool : Tool) : string -> ToolRun -> result (list RawFinding) :=
  match tool with
  | nmap => runNmapScan
  | nikto => runNiktoScan
  | sqlmap => runSqlmapScan
  | zap => runZapScan
  end.


(** ** The store, the job and the worker ([queueService.js]) *)

Inductive ScanStatus : Type := pending | running | complete | error | cancelled.

Definition is_terminal (s : ScanStatus) : bool :=
  match s with
  | complete | error | cancelled => true
  | pending | running => false
  end.

(** A row of table [scans] (the columns the engine writes). *)
Record ScanRow : Type := MkScanRow {
  id : string;
  status : ScanStatus;
  progress : Z;
  error_message : option string;
  started_at : option nat;
  completed_at : option nat
}.

(** A row of table [scan_results]: every column of the INSERT is a
    projection of the raw finding or of its analysis. *)
Record ScanResultRow : Type := MkScanResultRow {
  scan_id : string;
  finding : RawFinding;
  ai_analysis : Analysis.t
}.

(** What an observer of the store, of the queue and of the tools sees, in
    order. *)
Inductive Event : Type :=
| EvStatus (scanId : string) (s : ScanStatus)
| EvProgress (p : Z)
| EvAdapter (tool : Tool) (findings : list RawFinding)
| EvInsert (row : ScanResultRow)
| EvBackoff (delay_ms : Z).

(** The mutable world: the two tables, the job's [progress] as BullMQ keeps
    it, counters of the I/O operations and adapter invocations made so far,
    and the event log (latest event first). *)
Record World : Type := MkWorld {
  scans : list ScanRow;
  scan_results : list ScanResultRow;
  job_progress : Z;
  io_count : nat;
  tool_count : nat;
  log : list Event
}.

(** The environment: whether the n-th I/O operation (a [query] on the store
    or a [job.updateProgress] on Redis) rejects, and what the n-th adapter
    invocation meets. *)
Record Env : Type := MkEnv {
  io_fault : nat -> option Error;
  tool_run : nat -> ToolRun
}.

Definition trace (w : World) : list Event := rev (log w).

Definition emit (ev : Event) (w : World) : World :=
  MkWorld (scans w) (scan_results w) (job_progress w) (io_count w)
          (tool_count w) (ev :: log w).

Definition find_scan (scanId : string) (rows : list ScanRow) : option ScanRow :=
  find (fun r => String.eqb (id r) scanId) rows.

(** *** The monad of the worker: state with exceptions; the state reached
    when an exception is thrown is kept (nothing is rolled back). *)

Definition M (A : Type) : Type := Env -> World -> result A * World.

Definition ret {A} (a : A) : M A := fun _ w => (Ok a, w).

Definition bind {A B} (m : M A) (k : A -> M B) : M B :=
  fun env w =>
    match m env w with
    | (Ok a, w') => k a env w'
    | (Throw e, w') => (Throw e, w')
    end.

Definition throw {A} (e : Error) : M A := fun _ w => (Throw e, w).

Definition lift {A} (r : result A) : M A := fun _ w => (r, w).

Definition try_catchM {A} (body : M A) (handler : Error -> M A) : M A :=
  fun env w =>
    match body env w with
    | (Ok a, w') => (Ok a, w')
    | (Throw e, w') => handler e env w'
    end.

Declare Scope worker_scope.
Delimit Scope worker_scope with worker.
Notation "x <- m ;; k" := (bind m (fun x => k))
  (at level 100, m at next level, right associativity) : worker_scope.
Notation "m ;; k" := (bind m (fun _ => k))
  (at level 100, right associativity) : worker_scope.
Open Scope worker_scope.

(** One awaited I/O operation: it rejects when the environment says so. *)
Definition io : M unit :=
  fun env w =>
    let w' := MkWorld (scans w) (scan_results w) (job_progress w)
                      (S (io_count w)) (tool_count w) (log w) in
    match io_fault env (io_count w) with
    | Some e => (Throw e, w')
    | None => (Ok tt, w')
    end.

Definition set_status (s : ScanStatus) (r : ScanRow) : ScanRow :=
  MkScanRow (id r) s (progress r) (error_message r) (started_at r)
            (completed_at r).

(** [UPDATE scans SET ... WHERE id = scanId] on the rows of the table. *)
Definition update_rows (scanId : string) (f : ScanRow -> ScanRow)
    (rows : list ScanRow) : list ScanRow :=
  map (fun r => if String.eqb (id r) scanId then f r else r) rows.

(** [UPDATE scans SET status = st, ... WHERE id = scanId]; [others] sets the
    other columns of the statement, [now] is CURRENT_TIMESTAMP. *)
Definition update_scans (scanId : string) (st : ScanStatus)
    (others : nat -> ScanRow -> ScanRow) : M unit :=
  io ;;
  fun _ w =>
    let now := io_count w in
    let rows := update_rows scanId (fun r => set_status st (others now r))
                            (scans w) in
    (Ok tt, emit (EvStatus scanId st)
              (MkWorld rows (scan_results w) (job_progress w) (io_count w)
                       (tool_count w) (log w))).

(** [INSERT INTO scan_results ...]. *)
Definition insert_scan_result (row : ScanResultRow) : M unit :=
  io ;;
  fun _ w =>
    (Ok tt, emit (EvInsert row)
              (MkWorld (scans w) (scan_results w ++ [row])%list (job_progress w)
                       (io_count w) (tool_count w) (log w))).

(** [job.updateProgress(p)]. *)
Definition updateProgress (p : Z) : M unit :=
  io ;;
  fun _ w =>
    (Ok tt, emit (EvProgress p)
              (MkWorld (scans w) (scan_results w) p (io_count w)
                       (tool_count w) (log w))).

(** [await scanners.runXScan(target, options)]. *)
Definition callAdapter (tool : Tool) (target : string) : M (list RawFinding) :=
  fun env w =>
    let w' := MkWorld (scans w) (scan_results w) (job_progress w) (io_count w)
                      (S (tool_count w)) (log w) in
    match runAdapter tool target (tool_run env (tool_count w)) with
    | Ok findings => (Ok findings, emit (EvAdapter tool findings) w')
    | Throw e => (Throw e, w')
    end.

(** [job.data]; [options] only parameterise the command lines. *)
Record Job : Type := MkJob {
  scanId : string;
  target : string;
  scanType : string
}.

(** The loop of [executeScan] over [results]. *)
Fixpoint processResults (scanId : string) (results : list RawFinding)
  : M (list ScanResultRow) :=
  match results with
  | [] => ret []
  | result :: rest =>
      aiAnalysis <- lift (analyzeVulnerability result) ;;
      let row := MkScanResultRow scanId result aiAnalysis in
      insert_scan_result row ;;
      processed <- processResults scanId rest ;;
      ret (row :: processed)
  end.

(** The [switch (scanType)] of [executeScan]. *)
Definition dispatch (target scanType : string) : M (list RawFinding) :=
  if String.eqb scanType "nmap" then callAdapter nmap target
  else if String.eqb scanType "nikto" then callAdapter nikto target
  else if String.eqb scanType "sqlmap" then callAdapter sqlmap target
  else if String.eqb scanType "zap" then callAdapter zap target
  else if String.eqb scanType "comprehensive" then
    updateProgress 20 ;;
    nmapResults <- callAdapter nmap target ;;
    updateProgress 40 ;;
    niktoResults <- callAdapter nikto target ;;
    updateProgress 60 ;;
    sqlmapResults <- callAdapter sqlmap target ;;
    ret (nmapResults ++ niktoResults ++ sqlmapResults)%list
  else throw (MkError ("Unsupported scan type: " ++ scanType)).

(** [executeScan]; its own [catch] logs and rethrows. *)
Definition executeScan (scanId target scanType : string)
  : M (list ScanResultRow) :=
  updateProgress 10 ;;
  results <- dispatch target scanType ;;
  updateProgress 80 ;;
  processedResults <- processResults scanId results ;;
  updateProgress 100 ;;
  ret processedResults.

Record JobReturn : Type := MkJobReturn {
  success : bool;
  vulnerabilities : nat
}.

Definition mark_started (now : nat) (r : ScanRow) : ScanRow :=
  MkScanRow (id r) (status r) (progress r) (error_message r) (Some now)
            (completed_at r).

Definition mark_completed (now : nat) (r : ScanRow) : ScanRow :=
  MkScanRow (id r) (status r) 100 (error_message r) (started_at r) (Some now).

Definition mark_failed (msg : string) (now : nat) (r : ScanRow) : ScanRow :=
  MkScanRow (id r) (status r) (progress r) (Some msg) (started_at r)
            (Some now).

(** The processor function given to [new Worker('scan-processing', ...)]:
    its [try] block, its [catch] block, and the two together. *)
Definition scanWorker_try (job : Job) : M JobReturn :=
  update_scans (scanId job) running mark_started ;;
  scanResults <- executeScan (scanId job) (target job) (scanType job) ;;
  update_scans (scanId job) complete mark_completed ;;
  ret (MkJobReturn true (length scanResults)).

Definition scanWorker_catch (job : Job) (err : Error) : M JobReturn :=
  update_scans (scanId job) error (mark_failed (message err)) ;;
  throw err.

Definition scanWorker (job : Job) : M JobReturn :=
  try_catchM (scanWorker_try job) (scanWorker_catch job).

(** *** The queue's handling of a job

    [defaultJobOptions] of [scanQueue]: [attempts: 3] and
    [backoff: { type: 'exponential', delay: 2000 }].  BullMQ runs the
    processor; when it rejects, [attemptsMade] is incremented and, while it
    is below [attempts], the job is delayed by
    [2 ^ (attemptsMade - 1) * delay] milliseconds and processed again;
    otherwise the job is failed with the error's message. *)

Definition attempts : nat := 3.
Definition backoff_delay : Z := 2000.

Inductive JobState : Type :=
| completed (returnvalue : JobReturn)
| failed (failedReason : string).

Definition backoff (attemptsMade : nat) : Z :=
  (2 ^ (Z.of_nat attemptsMade - 1) * backoff_delay)%Z.

Fixpoint retry (retriesLeft attemptsMade : nat) (job : Job) (env : Env)
    (w : World) : JobState * World :=
  match scanWorker job env w with
  | (Ok r, w') => (completed r, w')
  | (Throw e, w') =>
      match retriesLeft with
      | O => (failed (message e), w')
      | S n =>
          retry n (S attemptsMade) job env
                (emit (EvBackoff (backoff (S attemptsMade))) w')
      end
  end.

Definition processJob (job : Job) (env : Env) (w : World) : JobState * World :=
  retry (attempts - 1) 0 job env w.

(** ** Definitions used to state the properties *)

(** The value [analyzeVulnerability] resolves to. *)
Definition classify (scanResult : RawFinding) : Analysis.t :=
  match performAnalysis scanResult with
  | Ok analysis => analysis
  | Throw _ => getFallbackAnalysis scanResult
  end.

(** The thresholds as the specification words them: at least 9.0 critical,
    at least 7.0 high, at least 4.0 medium, above 0.0 low, else info. *)
Definition spec_risk_level_of_score (score : float) : RiskLevel :=
  if (9.0 <=? score)%float then critical
  else if (7.0 <=? score)%float then high
  else if (4.0 <=? score)%float then medium
  else if (0.0 <? score)%float then low
  else info.

(** The multiplier as the specification words it: it starts at 1.0 and is
    incremented by 0.2 if the port is 22, 23 or 3389, by 0.3 if the service
    is mysql, postgresql or mssql, by 0.4 if a CVE id is present (the
    property holds a value that is not empty). *)
Definition spec_multiplier (scanResult : RawFinding) : float :=
  let m := 1.0%float in
  let m := if array_includes_num [22; 23; 3389]%float (port scanResult)
           then (m + 0.2)%float else m in
  let m := if array_includes_str ["mysql"; "postgresql"; "mssql"]
                                 (service scanResult)
           then (m + 0.3)%float else m in
  if truthy (cve_id scanResult) then (m + 0.4)%float else m.

(** The multiplied and capped score as the specification words it:
    min(base score x multiplier, 10.0). *)
Definition spec_capped_score (base_score multiplier : float) : float :=
  Math_min (base_score * multiplier) 10.0.

(** The conversion to a string does not throw. *)
Definition printable (v : jsval) : bool :=
  match ToString v with
  | Ok _ => true
  | Throw _ => false
  end.

(** A profile with another stored [risk_level]. *)
Definition with_risk_level (stored : RiskLevel) (b : Profile.t) : Profile.t :=
  Profile.Make stored (Profile.base_cvss b) (Profile.description b)
               (Profile.fix_suggestions b).


(** *** Reading an event list *)

Definition inserted (evs : list Event) : list ScanResultRow :=
  flat_map (fun ev => match ev with EvInsert row => [row] | _ => [] end) evs.

Definition status_writes (evs : list Event) : list ScanStatus :=
  flat_map (fun ev => match ev with EvStatus _ s => [s] | _ => [] end) evs.

Definition progress_reports (evs : list Event) : list Z :=
  flat_map (fun ev => match ev with EvProgress p => [p] | _ => [] end) evs.

Definition adapters_invoked (evs : list Event) : list Tool :=
  flat_map (fun ev => match ev with EvAdapter t _ => [t] | _ => [] end) evs.

Definition produced (evs : list Event) : list RawFinding :=
  flat_map (fun ev => match ev with EvAdapter _ fs => fs | _ => [] end) evs.

Definition backoffs (evs : list Event) : list Z :=
  flat_map (fun ev => match ev with EvBackoff d => [d] | _ => [] end) evs.

(** [Run pre w w']: from [w] to [w'] the events [pre] happened, in that
    order, and nothing else changed the tables: [scans] is untouched and
    [scan_results] grew by the inserted rows. *)
Definition Run (pre : list Event) (w w' : World) : Prop :=
  scans w' = scans w /\
  log w' = (rev pre ++ log w)%list /\
  scan_results w' = (scan_results w ++ inserted pre)%list /\
  tool_count w' = (tool_count w + length (adapters_invoked pre))%nat.

(** No I/O operation ever rejects. *)
Definition reliable (env : Env) : Prop := forall n, io_fault env n = None.

(** The error is one the environment injected into an I/O operation. *)
Definition injected (env : Env) (e : Error) : Prop :=
  exists n, io_fault env n = Some e.

(** The findings the n-th adapter invocation returns. *)
Definition adapterFindings (tool : Tool) (target : string) (env : Env)
    (n : nat) : list RawFinding :=
  match runAdapter tool target (tool_run env n) with
  | Ok findings => findings
  | Throw _ => []
  end.

Definition persistedRow (scanId : string) (f : RawFinding) : ScanResultRow :=
  MkScanResultRow scanId f (classify f).

(** The events of the [switch] of [executeScan] when nothing rejects, with
    the raw findings it yields; [None] on an unsupported scan type. *)
Definition dispatch_script (target scanType : string) (env : Env) (n : nat)
  : option (list Event * list RawFinding) :=
  if String.eqb scanType "nmap" then
    let fs := adapterFindings nmap target env n in
    Some ([EvAdapter nmap fs], fs)
  else if String.eqb scanType "nikto" then
    let fs := adapterFindings nikto target env n in
    Some ([EvAdapter nikto fs], fs)
  else if String.eqb scanType "sqlmap" then
    let fs := adapterFindings sqlmap target env n in
    Some ([EvAdapter sqlmap fs], fs)
  else if String.eqb scanType "zap" then
    let fs := adapterFindings zap target env n in
    Some ([EvAdapter zap fs], fs)
  else if String.eqb scanType "comprehensive" then
    let f1 := adapterFindings nmap target env n in
    let f2 := adapterFindings nikto target env (S n) in
    let f3 := adapterFindings sqlmap target env (S (S n)) in
    Some ([EvProgress 20; EvAdapter nmap f1; EvProgress 40;
           EvAdapter nikto f2; EvProgress 60; EvAdapter sqlmap f3],
          (f1 ++ f2 ++ f3)%list)
  else None.

Definition supported (scanType : string) : bool :=
  String.eqb scanType "nmap" || String.eqb scanType "nikto"
  || String.eqb scanType "sqlmap" || String.eqb scanType "zap"
  || String.eqb scanType "comprehensive".

(** The events of a whole [executeScan] when nothing rejects. *)
Definition exec_script (scanId target scanType : string) (env : Env) (n : nat)
  : list Event :=
  match dispatch_script target scanType env n with
  | Some (evs, results) =>
      ([EvProgress 10] ++ evs ++ [EvProgress 80]
       ++ map (fun f => EvInsert (persistedRow scanId f)) results
       ++ [EvProgress 100])%list
  | None => [EvProgress 10]
  end.

(** The events of one attempt of the worker when nothing rejects. *)
Definition attempt_script (job : Job) (env : Env) (n : nat) : list Event :=
  ([EvStatus (scanId job) running]
   ++ exec_script (scanId job) (target job) (scanType job) env n
   ++ [EvStatus (scanId job) complete])%list.


(** Why an attempt can fail: an injected I/O fault, or a scan type outside
    the [switch]. *)
Definition cause (env : Env) (scanType : string) (e : Error) : Prop :=
  injected env e \/
  (supported scanType = false /\
   e = MkError ("Unsupported scan type: " ++ scanType)).

(** What every row update of the engine keeps: the row's [id], and its
    [progress] unless it becomes 100. *)
Definition keeps (f : ScanRow -> ScanRow) : Prop :=
  forall row, id (f row) = id row /\
              (progress (f row) = progress row \/ progress (f row) = 100%Z).

(** [Step pre w w']: as [Run], but table [scans] may change. *)
Definition Step (pre : list Event) (w w' : World) : Prop :=
  log w' = (rev pre ++ log w)%list /\
  scan_results w' = (scan_results w ++ inserted pre)%list /\
  tool_count w' = (tool_count w + length (adapters_invoked pre))%nat.


(** *** Orders on what is observed *)

Fixpoint increasing (l : list Z) : bool :=
  match l with
  | a :: (b :: _) as l' => (a <? b)%Z && increasing l'
  | _ => true
  end.

(** The progress milestones of [executeScan] for a scan type. *)
Definition milestones (scanType : string) : list Z :=
  if String.eqb scanType "comprehensive" then [10; 20; 40; 60; 80; 100]%Z
  else if supported scanType then [10; 80; 100]%Z
  else [10]%Z.

(** The adapters of [executeScan] for a scan type, in call order. *)
Definition adapters_of (scanType : string) : list Tool :=
  if String.eqb scanType "nmap" then [nmap]
  else if String.eqb scanType "nikto" then [nikto]
  else if String.eqb scanType "sqlmap" then [sqlmap]
  else if String.eqb scanType "zap" then [zap]
  else if String.eqb scanType "comprehensive" then [nmap; nikto; sqlmap]
  else [].

(** Which status may be written right after which by the engine. *)
Definition allowed (a b : ScanStatus) : bool :=
  match a, b with
  | running, (running | complete | error) => true
  | error, (running | error) => true
  | _, _ => false
  end.

Fixpoint follows (prev : ScanStatus) (l : list ScanStatus) : bool :=
  match l with
  | [] => true
  | s :: l' => allowed prev s && follows s l'
  end.

(** The order of the status writes of one job: the first is [running] or
    [error], each next one is [allowed] after the one before; so nothing
    follows [complete], and neither [pending] nor [cancelled] is written. *)
Definition engine_status_order (l : list ScanStatus) : bool :=
  follows error l.


(** *** The properties as the specification states them, as checks on a
    trace *)

Definition status_eqb (a b : ScanStatus) : bool :=
  match a, b with
  | pending, pending | running, running | complete, complete
  | error, error | cancelled, cancelled => true
  | _, _ => false
  end.

(** "No transition out of complete, error or cancelled": once the current
    status is terminal, a later status write does not change it. *)
Fixpoint terminal_is_final (current : ScanStatus) (writes : list ScanStatus)
  : bool :=
  match writes with
  | [] => true
  | s :: writes' =>
      (negb (is_terminal current) || status_eqb s current)
      && terminal_is_final s writes'
  end.

(** "Progress never decreases while the status is non-terminal": a progress
    report made under a non-terminal status is not below the one before. *)
Fixpoint progress_never_decreases (current : ScanStatus) (last : Z)
    (tr : list Event) : bool :=
  match tr with
  | [] => true
  | EvStatus _ s :: tr' => progress_never_decreases s last tr'
  | EvProgress p :: tr' =>
      (is_terminal current || (last <=? p)%Z)
      && progress_never_decreases current p tr'
  | _ :: tr' => progress_never_decreases current last tr'
  end.

(** "Persisted as soon as produced": no adapter is invoked while findings
    that an earlier adapter returned still wait for their insert. *)
Fixpoint persisted_as_produced (waiting : list RawFinding) (tr : list Event)
  : bool :=
  match tr with
  | [] => true
  | EvAdapter _ findings :: tr' =>
      match waiting with
      | [] => persisted_as_produced findings tr'
      | _ :: _ => false
      end
  | EvInsert _ :: tr' => persisted_as_produced (tl waiting) tr'
  | _ :: tr' => persisted_as_produced waiting tr'
  end.


(** *** Concrete stores, environments and jobs *)

Definition store0 : World :=
  MkWorld [MkScanRow "scan-1" pending 0 None None None] [] 0 0 0 [].

Definition tools_time_out : nat -> ToolRun :=
  fun _ => MkToolRun TimedOut (Ok []).

(** Every I/O operation succeeds. *)
Definition calm : Env := MkEnv (fun _ => None) tools_time_out.

(** The store rejects the I/O operations whose numbers are listed. *)
Definition outage (ops : list nat) : Env :=
  MkEnv (fun n => if existsb (Nat.eqb n) ops
                  then Some (MkError "Connection terminated unexpectedly")
                  else None)
        tools_time_out.

Definition nmap_job : Job := MkJob "scan-1" "example.com" "nmap".



Definition comprehensive_job : Job :=
  MkJob "scan-1" "example.com" "comprehensive".

(** Findings used as examples. *)
Definition sql_cve_finding : RawFinding :=
  MkRawFinding (JStr "SQL Injection") (JStr "SQL Injection in Login Form")
    JUndefined JUndefined JUndefined JUndefined JUndefined
    (JStr "CVE-2021-44228") JUndefined JUndefined.

Definition telnet_cve_finding : RawFinding :=
  MkRawFinding (JStr "Open Port") (JStr "Telnet Service on Port 23")
    JUndefined (JNum 23) (JStr "telnet") JUndefined (JStr "tcp")
    (JStr "CVE-2020-10188") JUndefined JUndefined.

(** A finding whose [vulnerability_type] is a number. *)
Definition odd_finding : RawFinding :=
  MkRawFinding (JNum 7) (JStr "Odd") JUndefined JUndefined JUndefined
               JUndefined JUndefined JUndefined JUndefined JUndefined.

(** ** Further code of the three services *)

(** *** [parseNiktoOutput] ([scannerService.js])

    Strings are sequences of 8-bit characters; on them the line terminators
    that [.] refuses in a regular expression are LF and CR. *)

Definition LF : ascii := "010"%char.
Definition CR : ascii := "013"%char.

(** [content.split('\n')]. *)
Fixpoint split_lines (content : string) : list string :=
  match content with
  | EmptyString => [EmptyString]
  | String c rest =>
      if Ascii.eqb c LF then EmptyString :: split_lines rest
      else match split_lines rest with
           | line :: lines => String c line :: lines
           | [] => [String c EmptyString]
           end
  end.

Definition line_terminator (c : ascii) : bool :=
  Ascii.eqb c LF || Ascii.eqb c CR.

(** The longest run of characters that [.] accepts. *)
Fixpoint dot_run (s : string) : string :=
  match s with
  | EmptyString => EmptyString
  | String c rest =>
      if line_terminator c then EmptyString else String c (dot_run rest)
  end.

(** [line.match(/\+ (.+)/)]: the capture group of the leftmost match, which
    starts after the first "+ " that a character other than a line
    terminator follows, and runs as far as [.] accepts. *)
Fixpoint match_plus (line : string) : option string :=
  match line with
  | EmptyString => None
  | String c rest =>
      if Ascii.eqb c "+"%char then
        match rest with
        | String " "%char (String d rest') =>
            if line_terminator d then match_plus rest
            else Some (dot_run (String d rest'))
        | _ => match_plus rest
        end
      else match_plus rest
  end.

Definition niktoFinding (line captured : string) : RawFinding :=
  MkRawFinding (JStr "Web Vulnerability")
    (JStr (substring 0 100 captured)) (JStr captured)
    (JNum 80) (JStr "http") JUndefined JUndefined JUndefined JUndefined
    (JObj [ ("nikto_line", JStr line) ]).

(** The loop over the lines of the report. *)
Definition niktoLine (line : string) : list RawFinding :=
  if includes line "OSVDB" || includes line "CVE" || includes line "+ "
  then match match_plus line with
       | Some captured => [niktoFinding line captured]
       | None => []
       end
  else [].

(** [parseNiktoOutput]: [read] is what [fs.readFile] yields; when it throws
    the function's [catch] returns no finding. *)
Definition parseNiktoOutput (read : result string) : list RawFinding :=
  match read with
  | Ok content => flat_map niktoLine (split_lines content)
  | Throw _ => []
  end.

(** *** The report service ([ReportService] of [reportService.js]) *)

Module Report.

(** A row of [scan_results] as the report routes select it: the columns the
    summaries read, with the types of the schema ([risk_level] is the enum or
    NULL, [port] an INTEGER or NULL). *)
Record row : Type := MkRow {
  vulnerability_type : option string;
  risk_level : option RiskLevel;
  title : string;
  service : option string;
  port : option Z
}.

(** The accumulator of [generateVulnerabilitySummary]. *)
Record summary : Type := MkSummary {
  critical_count : nat;
  high_count : nat;
  medium_count : nat;
  low_count : nat;
  info_count : nat
}.

(** [acc[level] = (acc[level] || 0) + 1]. *)
Definition bump (level : RiskLevel) (acc : summary) : summary :=
  match level with
  | critical => MkSummary (S (critical_count acc)) (high_count acc)
                  (medium_count acc) (low_count acc) (info_count acc)
  | high => MkSummary (critical_count acc) (S (high_count acc))
              (medium_count acc) (low_count acc) (info_count acc)
  | medium => MkSummary (critical_count acc) (high_count acc)
                (S (medium_count acc)) (low_count acc) (info_count acc)
  | low => MkSummary (critical_count acc) (high_count acc)
             (medium_count acc) (S (low_count acc)) (info_count acc)
  | info => MkSummary (critical_count acc) (high_count acc)
              (medium_count acc) (low_count acc) (S (info_count acc))
  end.

(** [result.risk_level || 'info']. *)
Definition level_or_info (r : row) : RiskLevel :=
  match risk_level r with
  | Some level => level
  | None => info
  end.

Definition generateVulnerabilitySummary (scanResults : list row) : summary :=
  fold_left (fun acc result => bump (level_or_info result) acc) scanResults
            (MkSummary 0 0 0 0 0).

(** [['critical', 'high'].includes(r.risk_level)]. *)
Definition critical_or_high (r : row) : bool :=
  match risk_level r with
  | Some critical | Some high => true
  | _ => false
  end.

Record executive_summary : Type := MkExecutiveSummary {
  total_vulnerabilities : nat;
  overall_risk_level : string;
  critical_issues : nat;
  high_priority_issues : nat;
  key_findings : list string;
  immediate_actions_required : bool
}.

Definition generateExecutiveSummary (scanResults : list row)
  : executive_summary :=
  let summary := generateVulnerabilitySummary scanResults in
  let totalVulns := length scanResults in
  let riskLevel :=
    if (0 <? critical_count summary)%nat then "Critical"
    else if (0 <? high_count summary)%nat then "High"
    else if (0 <? medium_count summary)%nat then "Medium"
    else "Low" in
  MkExecutiveSummary totalVulns riskLevel
    (critical_count summary)
    (high_count summary + critical_count summary)
    (map title (firstn 5 (filter critical_or_high scanResults)))
    ((0 <? critical_count summary)%nat || (0 <? high_count summary)%nat).

(** [recommendations.add(x)] on a [Set], kept in insertion order. *)
Definition set_add (x : string) (set : list string) : list string :=
  if existsb (String.eqb x) set then set else (set ++ [x])%list.

(** [r.vulnerability_type?.toLowerCase().includes(needle)]. *)
Definition type_mentions (needle : string) (r : row) : bool :=
  match vulnerability_type r with
  | Some vt => includes (toLowerCase vt) needle
  | None => false
  end.

Definition is_critical (r : row) : bool :=
  match risk_level r with
  | Some critical => true
  | _ => false
  end.

Definition is_ssh (r : row) : bool :=
  match service r with
  | Some s => String.eqb s "ssh"
  | None => false
  end.

(** [r.port && [80, 443].includes(r.port)]. *)
Definition is_web_port (r : row) : bool :=
  match port r with
  | Some p => negb (p =? 0)%Z && ((p =? 80)%Z || (p =? 443)%Z)
  | None => false
  end.

Definition general_recommendations : list string :=
  [ "Implement regular security scanning and monitoring";
    "Keep all software and systems updated with latest security patches";
    "Conduct regular security awareness training for staff";
    "Implement network segmentation and access controls";
    "Establish incident response procedures" ].

Definition add_when (condition : bool) (x : string) (set : list string)
  : list string :=
  if condition then set_add x set else set.

Definition generateRecommendations (scanResults : list row) : list string :=
  let s0 := [] in
  let s1 := add_when (existsb is_critical scanResults)
    "Address critical vulnerabilities immediately - these pose severe security risks"
    s0 in
  let s2 := add_when (existsb (type_mentions "sql") scanResults)
    "Implement parameterized queries to prevent SQL injection attacks" s1 in
  let s3 := add_when (existsb is_ssh scanResults)
    "Secure SSH access with key-based authentication and access restrictions"
    s2 in
  let s4 := add_when (existsb (type_mentions "ssl") scanResults)
    "Update SSL/TLS configuration to use strong cipher suites" s3 in
  let s5 := add_when (existsb is_web_port scanResults)
    "Implement Web Application Firewall (WAF) for web services" s4 in
  fold_left (fun set x => set_add x set) general_recommendations s5.

(** The double quote character. *)
Definition dquote : ascii := "034"%char.

(** [field.replace] with the global pattern of one double quote: every
    double quote is doubled. *)
Fixpoint double_quotes (field : string) : string :=
  match field with
  | EmptyString => EmptyString
  | String c rest =>
      if Ascii.eqb c dquote
      then String dquote (String dquote (double_quotes rest))
      else String c (double_quotes rest)
  end.

(** The test of [escapeCsvField]: the field includes a comma, a double quote
    or a line feed. *)
Definition needs_quoting (field : string) : bool :=
  includes field "," || includes field (String dquote EmptyString)
  || includes field (String LF EmptyString).

(** [escapeCsvField]: a value that is not a string is returned as it is. *)
Definition escapeCsvField (field : jsval) : jsval :=
  match field with
  | JStr s =>
      if needs_quoting s
      then JStr (String dquote (double_quotes s ++ String dquote EmptyString))
      else JStr s
  | other => other
  end.

End Report.

(** *** Definitions used to state the further properties *)

(** The order of the risk levels. *)
Definition level_rank (level : RiskLevel) : nat :=
  match level with
  | info => 0
  | low => 1
  | medium => 2
  | high => 3
  | critical => 4
  end.

(** The finding with another [cve_id]. *)
Definition with_cve (f : RawFinding) (cve : jsval) : RawFinding :=
  MkRawFinding (vulnerability_type f) (title f) (description f) (port f)
               (service f) (version f) (protocol f) cve
               (affected_component f) (raw_output f).

(** What a character of a CSV field adds to the count of quote characters. *)
Fixpoint count_quotes (s : string) : nat :=
  match s with
  | EmptyString => 0
  | String c rest =>
      if Ascii.eqb c Report.dquote then S (count_quotes rest)
      else count_quotes rest
  end.

(** The count a summary holds for a level. *)
Definition count_of (level : RiskLevel) (s : Report.summary) : nat :=
  match level with
  | critical => Report.critical_count s
  | high => Report.high_count s
  | medium => Report.medium_count s
  | low => Report.low_count s
  | info => Report.info_count s
  end.

Definition level_eqb (a b : RiskLevel) : bool :=
  Nat.eqb (level_rank a) (level_rank b).

(** No string occurs twice. *)
Fixpoint distinct (l : list string) : bool :=
  match l with
  | [] => true
  | x :: rest => negb (existsb (String.eqb x) rest) && distinct rest
  end.

(** The events of a job whose attempts left the events [atts]: before each
    retry the queue waits for the backoff delay. *)
Fixpoint job_events (attemptsMade : nat) (atts : list (list Event))
  : list Event :=
  match atts with
  | [] => []
  | a :: later =>
      match later with
      | [] => a
      | _ :: _ =>
          (a ++ [EvBackoff (backoff (S attemptsMade))]
           ++ job_events (S attemptsMade) later)%list
      end
  end.

(** What one attempt can leave in the trace: a prefix of its script, then
    the error status when the [catch] block recorded a failure. *)
Definition attempt_events (job : Job) (env : Env) (a : list Event) : Prop :=
  exists m pre rest tl,
    attempt_script job env m = (pre ++ rest)%list /\
    a = (pre ++ tl)%list /\
    (tl = [] \/ tl = [EvStatus (scanId job) error]).

(** The trace of a job on an unsupported scan type when no I/O operation
    rejects. *)
Definition unsupported_trace (sid : string) : list Event :=
  [ EvStatus sid running; EvProgress 10; EvStatus sid error; EvBackoff 2000;
    EvStatus sid running; EvProgress 10; EvStatus sid error; EvBackoff 4000;
    EvStatus sid running; EvProgress 10; EvStatus sid error ].

Definition ftp_job : Job := MkJob "scan-1" "example.com" "ftp".

(** Further example findings. *)
Definition mysql_finding : RawFinding :=
  MkRawFinding (JStr "Open Port") (JStr "mysql Service on Port 3306")
    JUndefined (JNum 3306) (JStr "mysql") JUndefined (JStr "tcp")
    JUndefined JUndefined JUndefined.

(** A finding whose port is an object with an own [toString] that is not a
    function. *)
Definition object_port_finding : RawFinding :=
  MkRawFinding (JStr "Open Port") (JStr "SSH Service") JUndefined
    (JObj [ ("toString", JNum 1) ]) (JStr "ssh") JUndefined JUndefined
    JUndefined JUndefined JUndefined.

(** SSH on port 22 with a CVE id. *)
Definition ssh_cve_finding : RawFinding :=
  MkRawFinding (JStr "Open Port") (JStr "SSH Service on Port 22") JUndefined
    (JNum 22) (JStr "ssh") (JStr "OpenSSH 8.2p1") (JStr "tcp")
    (JStr "CVE-2023-48795") JUndefined JUndefined.

Definition ssh_finding : RawFinding :=
  MkRawFinding (JStr "Open Port") (JStr "SSH Service on Port 22") JUndefined
    (JNum 22) (JStr "ssh") (JStr "OpenSSH 8.2p1") (JStr "tcp") JUndefined
    JUndefined JUndefined.

(** * Properties *)

(** ** Strings *)

Lemma prefix_toLowerCase (p s : string) :
  toLowerCase p = p ->
  String.prefix p s = true -> String.prefix p (toLowerCase s) = true.
Proof.
  revert s; induction p as [|a p IH]; intros s Hp Hpre.
  - now destruct s.
  - destruct s as [|b s]; [discriminate|].
    simpl in Hp, Hpre |- *.
    injection Hp as Ha Hp'.
    destruct (ascii_dec a b) as [<-|]; [|discriminate].
    rewrite Ha.
    destruct (ascii_dec a a) as [_|Hne]; [|now elim Hne].
    now apply IH.
Qed.

Lemma includes_toLowerCase (s needle : string) :
  toLowerCase needle = needle ->
  includes s needle = true -> includes (toLowerCase s) needle = true.
Proof.
  intros Hn; induction s as [|c s IH]; intros H.
  - exact H.
  - change (toLowerCase (String c s))
      with (String (lower_ascii c) (toLowerCase s)).
    change (includes (String c s) needle)
      with (if String.prefix needle (String c s) then true
            else includes s needle) in H.
    change (includes (String (lower_ascii c) (toLowerCase s)) needle)
      with (if String.prefix needle (String (lower_ascii c) (toLowerCase s))
            then true else includes (toLowerCase s) needle).
    destruct (String.prefix needle (String c s)) eqn:Hp.
    + apply (prefix_toLowerCase _ Hn) in Hp.
      change (toLowerCase (String c s))
        with (String (lower_ascii c) (toLowerCase s)) in Hp.
      now rewrite Hp.
    + destruct (String.prefix needle (String (lower_ascii c) (toLowerCase s)));
        [reflexivity|].
      now apply IH.
Qed.

(** ** The analyzer *)

Lemma analyzeVulnerability_classify (scanResult : RawFinding) :
  analyzeVulnerability scanResult = Ok (classify scanResult).
Proof.
  unfold analyzeVulnerability, classify, try_catch.
  now destruct (performAnalysis scanResult).
Qed.

(** What a completed analysis holds. *)
Lemma performAnalysis_Ok (scanResult : RawFinding) (analysis : Analysis.t) :
  performAnalysis scanResult = Ok analysis ->
  exists pattern,
    identifyVulnerabilityPattern scanResult = Ok pattern /\
    let risk := calculateContextualRisk scanResult
                  (vulnerabilityDatabase pattern) in
    Analysis.risk_level analysis = ContextualRisk.risk_level risk /\
    Analysis.cvss_score analysis = ContextualRisk.cvss_score risk /\
    Analysis.confidence_score analysis = calculateConfidenceScore scanResult.
Proof.
  unfold performAnalysis.
  destruct (identifyVulnerabilityPattern scanResult) as [pattern|e];
    [|discriminate].
  cbn [rbind].
  destruct (generateTitle scanResult pattern) as [t|e]; [|discriminate].
  cbn [rbind].
  destruct (generateDescription scanResult (vulnerabilityDatabase pattern))
    as [d|e]; [|discriminate].
  cbn [rbind].
  destruct (generateFixSuggestion scanResult (vulnerabilityDatabase pattern))
    as [f|e]; [|discriminate].
  cbn [rbind]; intros H; injection H as <-.
  exists pattern; split; [reflexivity|]; cbv zeta; auto.
Qed.

Lemma classify_fallback (scanResult : RawFinding) (e : Error) :
  performAnalysis scanResult = Throw e ->
  classify scanResult = getFallbackAnalysis scanResult.
Proof. intros H; unfold classify; now rewrite H. Qed.

Lemma classify_Ok (scanResult : RawFinding) (analysis : Analysis.t) :
  performAnalysis scanResult = Ok analysis -> classify scanResult = analysis.
Proof. intros H; unfold classify; now rewrite H. Qed.

Lemma ToString_printable (v : jsval) :
  printable v = true -> exists t, ToString v = Ok t.
Proof. unfold printable; destruct (ToString v); [eauto|discriminate]. Qed.

(** The string assembly succeeds when the port, the service and the CVE id
    convert to strings. *)
Lemma performAnalysis_printable (scanResult : RawFinding) (pattern : Pattern) :
  identifyVulnerabilityPattern scanResult = Ok pattern ->
  printable (port scanResult) = true ->
  printable (service scanResult) = true ->
  printable (cve_id scanResult) = true ->
  exists analysis, performAnalysis scanResult = Ok analysis.
Proof.
  intros Hpat Hp Hs Hc.
  destruct (ToString_printable _ Hp) as [tp Ep].
  destruct (ToString_printable _ Hs) as [ts Es].
  destruct (ToString_printable _ Hc) as [tc Ec].
  unfold performAnalysis; rewrite Hpat; cbn [rbind].
  unfold generateTitle, generateDescription, generateFixSuggestion.
  destruct (truthy (port scanResult)), (truthy (service scanResult)),
    (truthy (cve_id scanResult)), pattern;
    cbn [rbind ToString]; rewrite ?Ep, ?Es, ?Ec; cbn [rbind ToString];
    rewrite ?Ep, ?Es, ?Ec; cbn [rbind ToString]; eauto.
Qed.

(** The string assembly can throw: the title of an SSH finding converts the
    port, and the analysis of a port that does not convert falls back. *)
Example string_assembly_can_throw :
  identifyVulnerabilityPattern object_port_finding = Ok ssh_open /\
  performAnalysis object_port_finding
  = Throw (MkError "Cannot convert object to primitive value") /\
  analyzeVulnerability object_port_finding
  = Ok (getFallbackAnalysis object_port_finding) /\
  printable (port object_port_finding) = false.
Proof. vm_compute; auto. Qed.

(** The simulated port scan: SSH on port 22 scores 5.3 * 1.2 = 6.4 (medium),
    HTTP on port 80 falls to the default profile. *)
Example simulated_nmap_classified :
  map (fun f => (Analysis.risk_level (classify f),
                 Analysis.cvss_score (classify f)))
      (getSimulatedNmapResults "example.com")
  = [(medium, 6.4%float); (info, 0.0%float)].
Proof. vm_compute; reflexivity. Qed.

(** The code's last threshold is [>= 0.1] where the specification says
    [> 0.0]; on every score a database profile can produce the two agree. *)
Lemma thresholds_on_database (scanResult : RawFinding) (pattern : Pattern) :
  ContextualRisk.risk_level
    (calculateContextualRisk scanResult (vulnerabilityDatabase pattern))
  = spec_risk_level_of_score
      (cappedScore scanResult (vulnerabilityDatabase pattern)).
Proof.
  unfold calculateContextualRisk, spec_risk_level_of_score, cappedScore,
    riskMultiplier; simpl ContextualRisk.risk_level.
  destruct (truthy (port scanResult) && _);
    destruct (truthy (service scanResult) && _);
    destruct (truthy (cve_id scanResult));
    destruct pattern; vm_compute; reflexivity.
Qed.

(** A number equal to a non-zero number is neither zero nor NaN. *)
Lemma eqb_nonzero (x y : float) :
  (x =? y)%float = true -> (y =? 0)%float = false ->
  (x =? 0)%float = false /\ PrimFloat.is_nan x = false.
Proof.
  unfold PrimFloat.is_nan; rewrite !FloatAxioms.eqb_spec.
  change (Prim2SF 0) with (SpecFloat.S754_zero false).
  destruct (Prim2SF x) as [s| s| |s m e], (Prim2SF y) as [s'|s'| |s' m' e'];
    unfold SpecFloat.SFeqb, SpecFloat.SFcompare;
    repeat match goal with s : bool |- _ => destruct s end;
    try discriminate;
    rewrite ?Z.compare_refl, ?Pos.compare_cont_refl; simpl; auto.
Qed.

Lemma listed_port_is_truthy (v : jsval) :
  array_includes_num [22; 23; 3389]%float v = true -> truthy v = true.
Proof.
  destruct v as [| |b|x|s|l]; simpl; try discriminate.
  rewrite orb_false_r; intros H.
  assert (Hx : (x =? 0)%float = false /\ PrimFloat.is_nan x = false).
  { apply orb_true_iff in H; destruct H as [H|H];
      [|apply orb_true_iff in H; destruct H as [H|H]];
      apply (@eqb_nonzero _ _ H); vm_compute; reflexivity. }
  destruct Hx as [-> ->]; reflexivity.
Qed.

Lemma listed_service_is_truthy (v : jsval) :
  array_includes_str ["mysql"; "postgresql"; "mssql"] v = true ->
  truthy v = true.
Proof.
  destruct v as [| |b|x|s|l]; simpl; try discriminate.
  destruct s; [discriminate|reflexivity].
Qed.

(** The multiplier of the code is the multiplier of the specification. *)
Lemma riskMultiplier_spec (scanResult : RawFinding) :
  riskMultiplier scanResult = spec_multiplier scanResult.
Proof.
  unfold riskMultiplier, spec_multiplier.
  destruct (array_includes_num [22; 23; 3389]%float (port scanResult)) eqn:Hp;
    [rewrite (listed_port_is_truthy _ Hp)|rewrite andb_false_r];
    (destruct (array_includes_str ["mysql"; "postgresql"; "mssql"]
                                  (service scanResult)) eqn:Hs;
     [rewrite (listed_service_is_truthy _ Hs)|rewrite andb_false_r]);
    reflexivity.
Qed.

(** The threshold level of the capped score is also the threshold level of
    the score rounded to one decimal, on every score a database profile can
    produce. *)
Lemma thresholds_on_returned_score
    (scanResult : RawFinding) (pattern : Pattern) :
  let risk := calculateContextualRisk scanResult
                (vulnerabilityDatabase pattern) in
  ContextualRisk.risk_level risk
  = spec_risk_level_of_score (ContextualRisk.cvss_score risk).
Proof.
  unfold calculateContextualRisk, spec_risk_level_of_score, cappedScore,
    riskMultiplier; cbn [ContextualRisk.risk_level ContextualRisk.cvss_score].
  destruct (truthy (port scanResult) && _);
    destruct (truthy (service scanResult) && _);
    destruct (truthy (cve_id scanResult));
    destruct pattern; vm_compute; reflexivity.
Qed.

Lemma cappedScore_spec (scanResult : RawFinding) (pattern : Pattern) :
  cappedScore scanResult (vulnerabilityDatabase pattern)
  = spec_capped_score (Profile.base_cvss (vulnerabilityDatabase pattern))
                      (spec_multiplier scanResult).
Proof.
  unfold cappedScore, spec_capped_score; now rewrite riskMultiplier_spec.
Qed.

(** C5: for every finding the analysis classifies, the returned risk level
    is the threshold level of the multiplied and capped score, min(base
    score x multiplier, 10.0) with the multiplier of the specification: at
    least 9.0 critical, at least 7.0 high, at least 4.0 medium, above 0.0
    low, otherwise info; the returned score is that score rounded to one
    decimal, and the returned level is also the threshold level of the
    returned score.  When the analysis throws, the fallback is returned,
    whose level info is the threshold level of its score 0.0. *)
Theorem risk_level_by_thresholds (scanResult : RawFinding) :
  (forall analysis,
     performAnalysis scanResult = Ok analysis ->
     analyzeVulnerability scanResult = Ok analysis /\
     exists pattern,
       identifyVulnerabilityPattern scanResult = Ok pattern /\
       let score :=
         spec_capped_score (Profile.base_cvss (vulnerabilityDatabase pattern))
                           (spec_multiplier scanResult) in
       Analysis.risk_level analysis = spec_risk_level_of_score score /\
       Analysis.cvss_score analysis = (Math_round (score * 10) / 10)%float /\
       Analysis.risk_level analysis
       = spec_risk_level_of_score (Analysis.cvss_score analysis)) /\
  (forall e,
     performAnalysis scanResult = Throw e ->
     exists analysis,
       analyzeVulnerability scanResult = Ok analysis /\
       Analysis.cvss_score analysis = 0.0%float /\
       Analysis.risk_level analysis = info /\
       spec_risk_level_of_score (Analysis.cvss_score analysis) = info).
Proof.
  split.
  - intros analysis Ha; split.
    { now rewrite analyzeVulnerability_classify, (classify_Ok _ Ha). }
    destruct (performAnalysis_Ok _ Ha) as (pattern & Hpat & Hl & Hs & _).
    exists pattern; split; [exact Hpat|]; cbv zeta.
    rewrite <- cappedScore_spec, Hl, Hs; split; [|split].
    + apply thresholds_on_database.
    + reflexivity.
    + apply thresholds_on_returned_score.
  - intros e He; exists (getFallbackAnalysis scanResult).
    rewrite analyzeVulnerability_classify, (classify_fallback _ He).
    repeat split; vm_compute; reflexivity.
Qed.

Lemma truthy_nonempty (s : string) : s <> "" -> truthy (JStr s) = true.
Proof.
  intros H; simpl; apply negb_true_iff, String.eqb_neq, H.
Qed.

(** C6: a finding whose vulnerability type contains "sql" (in any letter
    case) and that carries a CVE id, with no remote-access port and no
    database service, whose port and service convert to strings, selects the
    SQL-injection profile (base score 9.8), gets multiplier 1.4, the capped
    score min(9.8 * 1.4, 10.0) = 10.0, and is returned with score 10.0 and
    risk level critical. *)
Theorem sql_injection_with_cve_is_critical
    (scanResult : RawFinding) (vt cve : string) :
  vulnerability_type scanResult = JStr vt ->
  includes (toLowerCase vt) "sql" = true ->
  cve_id scanResult = JStr cve -> cve <> "" ->
  array_includes_num [22; 23; 3389]%float (port scanResult) = false ->
  array_includes_str ["mysql"; "postgresql"; "mssql"] (service scanResult)
    = false ->
  printable (port scanResult) = true ->
  printable (service scanResult) = true ->
  identifyVulnerabilityPattern scanResult = Ok sql_injection /\
  Profile.base_cvss (vulnerabilityDatabase sql_injection) = 9.8%float /\
  riskMultiplier scanResult = 1.4%float /\
  spec_multiplier scanResult = 1.4%float /\
  cappedScore scanResult (vulnerabilityDatabase sql_injection) = 10.0%float /\
  spec_capped_score 9.8 1.4 = 10.0%float /\
  exists analysis,
    performAnalysis scanResult = Ok analysis /\
    analyzeVulnerability scanResult = Ok analysis /\
    Analysis.cvss_score analysis = 10.0%float /\
    Analysis.risk_level analysis = critical.
Proof.
  intros Hvt Hsql Hcve Hne Hport Hsvc Hpp Hps.
  assert (Hpat : identifyVulnerabilityPattern scanResult = Ok sql_injection).
  { unfold identifyVulnerabilityPattern; rewrite Hvt; simpl.
    now rewrite Hsql. }
  assert (Hmul : riskMultiplier scanResult = 1.4%float).
  { unfold riskMultiplier.
    rewrite Hport, Hsvc, !andb_false_r, Hcve, (truthy_nonempty Hne).
    vm_compute; reflexivity. }
  assert (Hcap : cappedScore scanResult (vulnerabilityDatabase sql_injection)
                 = 10.0%float).
  { unfold cappedScore; rewrite Hmul; vm_compute; reflexivity. }
  split; [exact Hpat|]. split; [reflexivity|]. split; [exact Hmul|].
  split; [now rewrite <- riskMultiplier_spec|]. split; [exact Hcap|].
  split; [vm_compute; reflexivity|].
  destruct (@performAnalysis_printable scanResult sql_injection Hpat Hpp Hps)
    as [analysis Ha]; [now rewrite Hcve|].
  exists analysis; split; [exact Ha|]. split.
  - now rewrite analyzeVulnerability_classify, (classify_Ok _ Ha).
  - destruct (performAnalysis_Ok _ Ha) as (pattern & Hpat' & Hl & Hs & _).
    assert (pattern = sql_injection) by congruence; subst pattern.
    rewrite Hl, Hs; unfold calculateContextualRisk; rewrite Hcap.
    split; vm_compute; reflexivity.
Qed.

Lemma sql_injection_with_cve_is_critical_witness :
  identifyVulnerabilityPattern sql_cve_finding = Ok sql_injection /\
  Profile.base_cvss (vulnerabilityDatabase sql_injection) = 9.8%float /\
  riskMultiplier sql_cve_finding = 1.4%float /\
  spec_multiplier sql_cve_finding = 1.4%float /\
  cappedScore sql_cve_finding (vulnerabilityDatabase sql_injection)
    = 10.0%float /\
  spec_capped_score 9.8 1.4 = 10.0%float /\
  exists analysis,
    performAnalysis sql_cve_finding = Ok analysis /\
    analyzeVulnerability sql_cve_finding = Ok analysis /\
    Analysis.cvss_score analysis = 10.0%float /\
    Analysis.risk_level analysis = critical.
Proof.
  apply (@sql_injection_with_cve_is_critical sql_cve_finding
           "SQL Injection" "CVE-2021-44228");
    try reflexivity.
  discriminate.
Defined.

Lemma risk_level_by_thresholds_witness :
  exists analysis,
    analyzeVulnerability ssh_cve_finding = Ok analysis /\
    Analysis.risk_level analysis = high /\
    spec_capped_score 5.3 (1.0 + 0.2 + 0.4) = 8.48%float.
Proof.
  destruct (performAnalysis ssh_cve_finding) as [analysis|e] eqn:Ha;
    [|vm_compute in Ha; discriminate].
  destruct (proj1 (risk_level_by_thresholds ssh_cve_finding) analysis Ha)
    as (Hok & pattern & Hpat & Hl & _).
  exists analysis; split; [exact Hok|].
  assert (pattern = ssh_open)
    by (vm_compute in Hpat; now injection Hpat as <-).
  subst pattern; rewrite Hl; split; vm_compute; reflexivity.
Defined.

Lemma calculateContextualRisk_ignores_stored
    (scanResult : RawFinding) (b : Profile.t) (stored : RiskLevel) :
  calculateContextualRisk scanResult (with_risk_level stored b)
  = calculateContextualRisk scanResult b.
Proof. reflexivity. Qed.

Lemma open_port_risk (scanResult : RawFinding) :
  calculateContextualRisk scanResult (vulnerabilityDatabase open_port)
  = ContextualRisk.Make info 0.0.
Proof.
  unfold calculateContextualRisk, cappedScore, riskMultiplier.
  destruct (truthy (port scanResult) && _);
    destruct (truthy (service scanResult) && _);
    destruct (truthy (cve_id scanResult));
    vm_compute; reflexivity.
Qed.

(** C10: the returned risk level is a function of the capped score alone,
    whatever risk level the matched profile stores; and a finding matching
    the default open-port profile (base score 0.0) is returned with risk
    level info and score 0.0 whatever the multiplier. *)
Theorem risk_level_from_score_only (scanResult : RawFinding) :
  (forall (pattern : Pattern) (stored : RiskLevel),
     let risk := calculateContextualRisk scanResult
                   (with_risk_level stored (vulnerabilityDatabase pattern)) in
     ContextualRisk.risk_level risk
     = spec_risk_level_of_score
         (cappedScore scanResult (vulnerabilityDatabase pattern))) /\
  (identifyVulnerabilityPattern scanResult = Ok open_port ->
   exists analysis,
     analyzeVulnerability scanResult = Ok analysis /\
     Analysis.risk_level analysis = info /\
     Analysis.cvss_score analysis = 0.0%float).
Proof.
  split.
  - intros pattern stored risk; subst risk.
    rewrite calculateContextualRisk_ignores_stored.
    apply thresholds_on_database.
  - intros Hpat; exists (classify scanResult); split.
    + apply analyzeVulnerability_classify.
    + destruct (performAnalysis scanResult) as [analysis|e] eqn:Ha.
      * rewrite (classify_Ok _ Ha).
        destruct (performAnalysis_Ok _ Ha) as (pattern & Hpat' & Hl & Hs & _).
        assert (pattern = open_port) by congruence; subst pattern.
        now rewrite Hl, Hs, open_port_risk.
      * rewrite (classify_fallback _ Ha); auto.
Qed.

Lemma risk_level_from_score_only_witness :
  riskMultiplier telnet_cve_finding = (1.0 + 0.2 + 0.4)%float /\
  exists analysis,
    analyzeVulnerability telnet_cve_finding = Ok analysis /\
    Analysis.risk_level analysis = info /\
    Analysis.cvss_score analysis = 0.0%float.
Proof.
  split; [reflexivity|].
  apply (proj2 (risk_level_from_score_only telnet_cve_finding)).
  reflexivity.
Defined.

(** ** The worker monad: how events and tables evolve *)

Lemma Run_refl (w : World) : Run [] w w.
Proof.
  unfold Run; simpl; rewrite app_nil_r, Nat.add_0_r; auto.
Qed.

Lemma inserted_app (a b : list Event) :
  inserted (a ++ b) = (inserted a ++ inserted b)%list.
Proof. apply flat_map_app. Qed.

Lemma adapters_invoked_app (a b : list Event) :
  adapters_invoked (a ++ b) = (adapters_invoked a ++ adapters_invoked b)%list.
Proof. apply flat_map_app. Qed.

Lemma Run_trans (p q : list Event) (w w1 w2 : World) :
  Run p w w1 -> Run q w1 w2 -> Run (p ++ q) w w2.
Proof.
  intros (Hs & Hl & Hr & Ht) (Hs' & Hl' & Hr' & Ht'); unfold Run.
  rewrite Hs', Hs, Hl', Hl, Hr', Hr, Ht', Ht.
  rewrite rev_app_distr, inserted_app, adapters_invoked_app, length_app,
    <- !app_assoc, Nat.add_assoc; auto.
Qed.

Section Primitives.
Variable env : Env.

Lemma updateProgress_inv (p : Z) (w w' : World) (r : result unit) :
  updateProgress p env w = (r, w') ->
  (r = Ok tt /\ Run [EvProgress p] w w') \/
  (exists e, r = Throw e /\ injected env e /\ Run [] w w').
Proof.
  unfold updateProgress, bind, io, Run, injected.
  destruct (io_fault env (io_count w)) as [e|] eqn:Hf;
    intros H; injection H as <- <-; simpl.
  - right; exists e; rewrite app_nil_r, Nat.add_0_r; eauto 10.
  - left; rewrite app_nil_r, Nat.add_0_r; auto.
Qed.

Lemma insert_scan_result_inv (row : ScanResultRow) (w w' : World)
    (r : result unit) :
  insert_scan_result row env w = (r, w') ->
  (r = Ok tt /\ Run [EvInsert row] w w') \/
  (exists e, r = Throw e /\ injected env e /\ Run [] w w').
Proof.
  unfold insert_scan_result, bind, io, Run, injected.
  destruct (io_fault env (io_count w)) as [e|] eqn:Hf;
    intros H; injection H as <- <-; simpl.
  - right; exists e; rewrite app_nil_r, Nat.add_0_r; eauto 10.
  - left; rewrite Nat.add_0_r; auto.
Qed.

Lemma runAdapter_total (tool : Tool) (target : string) (run : ToolRun) :
  exists findings, runAdapter tool target run = Ok findings.
Proof.
  destruct tool; simpl;
    unfold runNmapScan, runNiktoScan, runSqlmapScan, runZapScan, try_catch, rbind;
    try (destruct (executeCommand _ (process run)); try destruct (report run));
    eauto.
Qed.

Lemma callAdapter_inv (tool : Tool) (target : string) (w w' : World)
    (r : result (list RawFinding)) :
  callAdapter tool target env w = (r, w') ->
  let fs := adapterFindings tool target env (tool_count w) in
  r = Ok fs /\ Run [EvAdapter tool fs] w w'.
Proof.
  unfold callAdapter, adapterFindings, Run.
  destruct (runAdapter_total tool target (tool_run env (tool_count w)))
    as [fs ->].
  intros H; injection H as <- <-; simpl.
  rewrite app_nil_r, Nat.add_1_r; auto.
Qed.

End Primitives.

Section ExecuteScan.
Variable env : Env.

Lemma Run_tool_count (pre : list Event) (w w' : World) :
  Run pre w w' ->
  tool_count w' = (tool_count w + length (adapters_invoked pre))%nat.
Proof. now intros (_ & _ & _ & H). Qed.

Lemma processResults_inv (sid : string) (results : list RawFinding) :
  forall (w w' : World) (r : result (list ScanResultRow)),
  processResults sid results env w = (r, w') ->
  exists pre rest,
    results = (pre ++ rest)%list /\
    Run (map (fun f => EvInsert (persistedRow sid f)) pre) w w' /\
    ((r = Ok (map (persistedRow sid) results) /\ rest = []) \/
     (exists e, r = Throw e /\ injected env e /\ rest <> [])).
Proof.
  induction results as [|f results IH]; intros w w' r H.
  - injection H as <- <-.
    exists [], []; split; [reflexivity|]; split; [apply Run_refl|left; auto].
  - simpl in H; unfold bind at 1, lift in H.
    rewrite analyzeVulnerability_classify in H.
    unfold bind at 1 in H.
    destruct (insert_scan_result _ env w) as [[[]|e] w1] eqn:Hi;
      apply insert_scan_result_inv in Hi;
      destruct Hi as [[Hr Hrun]|(e' & Hr & Hinj & Hrun)]; try discriminate.
    + unfold bind at 1 in H.
      destruct (processResults sid results env w1) as [[rows|e] w2] eqn:Hp;
        apply IH in Hp;
        destruct Hp as (pre & rest & -> & Hrun' & [[Hok ->]|(e' & He & Hinj & Hne)]);
        try discriminate; injection H as <- <-.
      * exists (f :: pre), []; split; [reflexivity|]; split.
        { apply (Run_trans Hrun Hrun'). }
        left; split; [|reflexivity].
        injection Hok as ->; reflexivity.
      * exists (f :: pre), rest; split; [reflexivity|]; split.
        { apply (Run_trans Hrun Hrun'). }
        right; exists e; injection He as <-; auto.
    + injection H as <- <-; injection Hr as <-.
      exists [], (f :: results); split; [reflexivity|]; split; [exact Hrun|].
      right; exists e; repeat split; auto; discriminate.
Qed.

Lemma supported_dispatch_script (target scanType : string) (n : nat) :
  supported scanType = true <->
  dispatch_script target scanType env n <> None.
Proof.
  unfold supported, dispatch_script.
  destruct (String.eqb scanType "nmap"), (String.eqb scanType "nikto"),
    (String.eqb scanType "sqlmap"), (String.eqb scanType "zap"),
    (String.eqb scanType "comprehensive"); simpl; split; congruence.
Qed.

Lemma dispatch_inv (target scanType : string) (w w' : World)
    (r : result (list RawFinding)) :
  dispatch target scanType env w = (r, w') ->
  match dispatch_script target scanType env (tool_count w) with
  | Some (evs, results) =>
      exists pre rest,
        evs = (pre ++ rest)%list /\ Run pre w w' /\
        ((r = Ok results /\ rest = []) \/
         (exists e, r = Throw e /\ injected env e))
  | None =>
      Run [] w w' /\ r = Throw (MkError ("Unsupported scan type: " ++ scanType))
  end.
Proof.
  unfold dispatch, dispatch_script.
  assert (Hsingle : forall tool,
    callAdapter tool target env w = (r, w') ->
    let fs := adapterFindings tool target env (tool_count w) in
    exists pre rest,
      [EvAdapter tool fs] = (pre ++ rest)%list /\ Run pre w w' /\
      ((r = Ok fs /\ rest = []) \/ (exists e, r = Throw e /\ injected env e))).
  { intros tool H; apply callAdapter_inv in H; destruct H as [-> Hrun].
    eexists [_], []; split; [reflexivity|]; eauto. }
  destruct (String.eqb scanType "nmap"); [apply Hsingle|].
  destruct (String.eqb scanType "nikto"); [apply Hsingle|].
  destruct (String.eqb scanType "sqlmap"); [apply Hsingle|].
  destruct (String.eqb scanType "zap"); [apply Hsingle|].
  clear Hsingle.
  destruct (String.eqb scanType "comprehensive").
  2:{ intros H; injection H as <- <-; auto using Run_refl. }
  intros H; unfold bind in H.
  destruct (updateProgress 20 env w) as [[[]|e] w1] eqn:H1;
    apply updateProgress_inv in H1;
    destruct H1 as [[? R1]|(e' & He & Hinj & R1)]; try discriminate.
  2:{ injection H as <- <-; injection He as <-.
      eexists [], _; split; [reflexivity|]; eauto. }
  assert (T1 : tool_count w1 = tool_count w)
    by (rewrite (Run_tool_count R1); simpl; lia).
  destruct (callAdapter nmap target env w1) as [r2 w2] eqn:H2;
    apply callAdapter_inv in H2; rewrite T1 in H2; destruct H2 as [-> R2].
  pose proof (Run_trans R1 R2) as R12; simpl in R12.
  destruct (updateProgress 40 env w2) as [[[]|e] w3] eqn:H3;
    apply updateProgress_inv in H3;
    destruct H3 as [[? R3]|(e' & He & Hinj & R3)]; try discriminate.
  2:{ injection H as <- <-; injection He as <-.
      pose proof (Run_trans R12 R3) as R; simpl in R.
      eexists _, _; split; [|split; [exact R|eauto]]; reflexivity. }
  pose proof (Run_trans R12 R3) as R123; simpl in R123.
  assert (T3 : tool_count w3 = S (tool_count w))
    by (rewrite (Run_tool_count R123); simpl; lia).
  destruct (callAdapter nikto target env w3) as [r4 w4] eqn:H4;
    apply callAdapter_inv in H4; rewrite T3 in H4; destruct H4 as [-> R4].
  pose proof (Run_trans R123 R4) as R1234; simpl in R1234.
  destruct (updateProgress 60 env w4) as [[[]|e] w5] eqn:H5;
    apply updateProgress_inv in H5;
    destruct H5 as [[? R5]|(e' & He & Hinj & R5)]; try discriminate.
  2:{ injection H as <- <-; injection He as <-.
      pose proof (Run_trans R1234 R5) as R; simpl in R.
      eexists _, _; split; [|split; [exact R|eauto]]; reflexivity. }
  pose proof (Run_trans R1234 R5) as R12345; simpl in R12345.
  assert (T5 : tool_count w5 = S (S (tool_count w)))
    by (rewrite (Run_tool_count R12345); simpl; lia).
  destruct (callAdapter sqlmap target env w5) as [r6 w6] eqn:H6;
    apply callAdapter_inv in H6; rewrite T5 in H6; destruct H6 as [-> R6].
  pose proof (Run_trans R12345 R6) as R; simpl in R.
  injection H as <- <-.
  eexists _, []; split; [|split; [exact R|left; split; reflexivity]].
  reflexivity.
Qed.

Lemma dispatch_script_events (target scanType : string) (n : nat)
    (evs : list Event) (results : list RawFinding) :
  dispatch_script target scanType env n = Some (evs, results) ->
  inserted evs = [] /\ status_writes evs = [] /\ backoffs evs = [] /\
  produced evs = results.
Proof.
  unfold dispatch_script.
  destruct (String.eqb scanType "nmap"), (String.eqb scanType "nikto"),
    (String.eqb scanType "sqlmap"), (String.eqb scanType "zap"),
    (String.eqb scanType "comprehensive");
    intros H; try discriminate; injection H as <- <-; simpl;
    rewrite ?app_nil_r; auto.
Qed.

Lemma executeScan_inv (sid target scanType : string) (w w' : World)
    (r : result (list ScanResultRow)) :
  executeScan sid target scanType env w = (r, w') ->
  exists pre rest,
    exec_script sid target scanType env (tool_count w) = (pre ++ rest)%list /\
    Run pre w w' /\
    ((r = Ok (inserted pre) /\ rest = [] /\ supported scanType = true) \/
     (exists e, r = Throw e /\
        (injected env e \/
         (supported scanType = false /\
          e = MkError ("Unsupported scan type: " ++ scanType))))).
Proof.
  unfold executeScan, exec_script; intros H.
  unfold bind at 1 in H.
  destruct (updateProgress 10 env w) as [[[]|e] w1] eqn:H1;
    apply updateProgress_inv in H1;
    destruct H1 as [[? R1]|(e' & He & Hinj & R1)]; try discriminate.
  2:{ injection H as <- <-; injection He as <-.
      eexists [], _; split; [reflexivity|]; eauto 8. }
  assert (T1 : tool_count w1 = tool_count w)
    by (rewrite (Run_tool_count R1); simpl; lia).
  unfold bind at 1 in H.
  destruct (dispatch target scanType env w1) as [rd w2] eqn:Hd.
  apply dispatch_inv in Hd; rewrite T1 in Hd.
  pose proof (supported_dispatch_script target scanType (tool_count w)) as Hsup.
  destruct (dispatch_script target scanType env (tool_count w))
    as [[evs results]|] eqn:Hds.
  2:{ destruct Hd as [R2 ->]; injection H as <- <-.
      pose proof (Run_trans R1 R2) as R.
      exists [EvProgress 10], []; split; [reflexivity|]; split; [exact R|].
      right; eexists; split; [reflexivity|right]; split; [|reflexivity].
      destruct (supported scanType); [|reflexivity].
      now destruct (proj1 Hsup eq_refl). }
  assert (Hs : supported scanType = true) by (apply Hsup; discriminate).
  destruct Hd as (dpre & drest & -> & R2 & [[-> ->]|(e & -> & Hinj)]).
  2:{ injection H as <- <-.
      pose proof (Run_trans R1 R2) as R.
      eexists _, _; split; [|split; [exact R|eauto 8]].
      simpl; rewrite <- !app_assoc; reflexivity. }
  rewrite app_nil_r in *.
  pose proof (Run_trans R1 R2) as R12.
  unfold bind at 1 in H.
  destruct (updateProgress 80 env w2) as [[[]|e] w3] eqn:H3;
    apply updateProgress_inv in H3;
    destruct H3 as [[? R3]|(e' & He & Hinj & R3)]; try discriminate.
  2:{ injection H as <- <-; injection He as <-.
      pose proof (Run_trans R12 R3) as R; rewrite app_nil_r in R.
      eexists _, _; split; [|split; [exact R|eauto 8]]; reflexivity. }
  pose proof (Run_trans R12 R3) as R123.
  unfold bind at 1 in H.
  destruct (processResults sid results env w3) as [rp w4] eqn:H4.
  apply processResults_inv in H4.
  destruct H4 as (ppre & prest & -> & R4 & [[-> ->]|(e & -> & Hinj & _)]).
  2:{ injection H as <- <-.
      pose proof (Run_trans R123 R4) as R.
      eexists _, _; split; [|split; [exact R|eauto 8]].
      rewrite map_app; simpl; rewrite <- !app_assoc; reflexivity. }
  rewrite app_nil_r in *.
  pose proof (Run_trans R123 R4) as R1234.
  unfold bind at 1 in H.
  assert (Hins : forall a b,
    inserted (([EvProgress 10] ++ a) ++ [EvProgress 80]
              ++ map (fun f => EvInsert (persistedRow sid f)) ppre ++ b)%list
    = (inserted a ++ map (persistedRow sid) ppre ++ inserted b)%list).
  { intros a b; rewrite !inserted_app; simpl; f_equal; f_equal.
    clear; induction ppre as [|f l IH]; simpl; congruence. }
  destruct (updateProgress 100 env w4) as [[[]|e] w5] eqn:H5;
    apply updateProgress_inv in H5;
    destruct H5 as [[? R5]|(e' & He & Hinj & R5)]; try discriminate.
  2:{ injection H as <- <-; injection He as <-.
      pose proof (Run_trans R1234 R5) as R; rewrite app_nil_r in R.
      eexists _, _; split; [|split; [exact R|eauto 8]].
      rewrite <- !app_assoc; reflexivity. }
  pose proof (Run_trans R1234 R5) as R.
  injection H as <- <-.
  eexists _, []; split; [|split; [exact R|left]].
  - rewrite <- !app_assoc, app_nil_r; reflexivity.
  - split; [|auto].
    rewrite <- !app_assoc.
    rewrite (app_assoc [EvProgress 10] dpre), Hins.
    destruct (dispatch_script_events _ _ _ Hds) as (Hd & _).
    rewrite Hd; simpl; rewrite app_nil_r; reflexivity.
Qed.

End ExecuteScan.

(** ** One attempt of the worker *)

Lemma update_rows_compose (sid : string) (f g : ScanRow -> ScanRow)
    (rows : list ScanRow) :
  (forall r, id (f r) = id r) ->
  update_rows sid g (update_rows sid f rows)
  = update_rows sid (fun r => g (f r)) rows.
Proof.
  intros Hid; unfold update_rows; rewrite map_map; apply map_ext; intros r.
  destruct (String.eqb (id r) sid) eqn:E; [|now rewrite E].
  now rewrite Hid, E.
Qed.

Lemma update_rows_same (sid : string) (rows : list ScanRow) :
  update_rows sid (fun r => r) rows = rows.
Proof.
  unfold update_rows; rewrite <- (map_id rows) at 2; apply map_ext; intros r.
  now destruct (String.eqb (id r) sid).
Qed.

Lemma find_scan_update_rows (sid : string) (f : ScanRow -> ScanRow)
    (rows : list ScanRow) :
  (forall r, id (f r) = id r) ->
  find_scan sid (update_rows sid f rows) = option_map f (find_scan sid rows).
Proof.
  intros Hid; unfold find_scan, update_rows.
  induction rows as [|r rows IH]; simpl; [reflexivity|].
  destruct (String.eqb (id r) sid) eqn:E.
  - now rewrite Hid, E.
  - now rewrite E.
Qed.

Lemma Run_Step (pre : list Event) (w w' : World) : Run pre w w' -> Step pre w w'.
Proof. intros (_ & H); exact H. Qed.

Lemma Step_trans (p q : list Event) (w w1 w2 : World) :
  Step p w w1 -> Step q w1 w2 -> Step (p ++ q) w w2.
Proof.
  intros (Hl & Hr & Ht) (Hl' & Hr' & Ht'); unfold Step.
  rewrite Hl', Hl, Hr', Hr, Ht', Ht.
  rewrite rev_app_distr, inserted_app, adapters_invoked_app, length_app,
    <- !app_assoc, Nat.add_assoc; auto.
Qed.

Section Attempt.
Variable env : Env.

Lemma update_scans_inv (sid : string) (st : ScanStatus)
    (others : nat -> ScanRow -> ScanRow) (w w' : World) (r : result unit) :
  update_scans sid st others env w = (r, w') ->
  io_count w' = S (io_count w) /\
  ((r = Ok tt /\ io_fault env (io_count w) = None /\
    Step [EvStatus sid st] w w' /\
    scans w' = update_rows sid
                 (fun r => set_status st (others (S (io_count w)) r))
                 (scans w)) \/
   (exists e, r = Throw e /\ io_fault env (io_count w) = Some e /\
      Step [] w w' /\ scans w' = scans w)).
Proof.
  unfold update_scans, bind, io, Step.
  destruct (io_fault env (io_count w)) as [e|] eqn:Hf;
    intros H; injection H as <- <-; simpl; split; auto.
  - right; exists e; rewrite app_nil_r, Nat.add_0_r; auto 10.
  - left; rewrite app_nil_r, Nat.add_0_r; auto 10.
Qed.

(** What the [try] block of the worker does. *)
Lemma scanWorker_try_inv (job : Job) (w w' : World) (r : result JobReturn) :
  scanWorker_try job env w = (r, w') ->
  exists pre rest f,
    attempt_script job env (tool_count w) = (pre ++ rest)%list /\
    Step pre w w' /\
    scans w' = update_rows (scanId job) f (scans w) /\
    keeps f /\
    ((r = Ok (MkJobReturn true (length (inserted pre))) /\ rest = [] /\
      forall row, status (f row) = complete /\ progress (f row) = 100%Z /\
                  error_message (f row) = error_message row) \/
     (exists e, r = Throw e /\ rest <> [] /\ cause env (scanType job) e)).
Proof.
  unfold scanWorker_try, attempt_script; intros H.
  set (sid := scanId job) in *.
  unfold bind at 1 in H.
  destruct (update_scans sid running mark_started env w) as [[[]|e] w1] eqn:H1;
    apply update_scans_inv in H1;
    destruct H1 as (_ & [(? & _ & S1 & Hs1)|(e' & He & Hinj & S1 & Hs1)]);
    try discriminate.
  2:{ injection H as <- <-; injection He as <-.
      eexists [], _, (fun r => r); split; [reflexivity|].
      split; [exact S1|].
      split; [now rewrite update_rows_same|]. split; [intros row; split; [reflexivity|auto]|].
      right; exists e; repeat split; [discriminate|left; red; eauto]. }
  assert (T1 : tool_count w1 = tool_count w)
    by (destruct S1 as (_ & _ & ->); simpl; lia).
  unfold bind at 1 in H.
  destruct (executeScan sid (target job) (scanType job) env w1)
    as [re w2] eqn:H2.
  apply executeScan_inv in H2; rewrite T1 in H2.
  destruct H2 as (pre & rest & -> & R2 & Hres).
  pose proof (Step_trans S1 (Run_Step R2)) as S12.
  assert (Hs2 : scans w2 = scans w1) by apply R2.
  set (f1 := fun r => set_status running
                        (mark_started (S (io_count w)) r)) in *.
  destruct Hres as [(-> & -> & Hsup)|(e & -> & Hc)].
  2:{ injection H as <- <-.
      exists ([EvStatus sid running] ++ pre)%list,
             (rest ++ [EvStatus sid complete])%list, f1.
      split; [now rewrite <- !app_assoc|].
      split; [exact S12|]. split; [congruence|].
      split; [intros row; split; [reflexivity|auto]|].
      right; exists e; repeat split; auto.
      now destruct rest. }
  rewrite app_nil_r in *.
  unfold bind at 1 in H.
  destruct (update_scans sid complete mark_completed env w2)
    as [[[]|e] w3] eqn:H3;
    apply update_scans_inv in H3;
    destruct H3 as (_ & [(? & _ & S3 & Hs3)|(e' & He & Hinj & S3 & Hs3)]);
    try discriminate; injection H as <- <-.
  - pose proof (Step_trans S12 S3) as S123.
    exists (([EvStatus sid running] ++ pre) ++ [EvStatus sid complete])%list,
           [],
           (fun r => set_status complete
                       (mark_completed (S (io_count w2)) (f1 r))).
    split; [now rewrite <- !app_assoc, app_nil_r|].
    split; [exact S123|].
    split; [rewrite Hs3, Hs2, Hs1, update_rows_compose; reflexivity|].
    split; [intros row; split; [reflexivity|right; reflexivity]|].
    left; split; [|split; [reflexivity|intros row; simpl; auto]].
    rewrite !inserted_app; simpl; now rewrite app_nil_r.
  - injection He as <-.
    pose proof (Step_trans S12 S3) as S123; rewrite app_nil_r in S123.
    exists ([EvStatus sid running] ++ pre)%list, [EvStatus sid complete], f1.
    split; [now rewrite <- !app_assoc|].
    split; [exact S123|]. split; [congruence|].
    split; [intros row; split; [reflexivity|auto]|].
    right; exists e; repeat split; [discriminate|left; red; eauto].
Qed.

(** What one attempt (the [try] block followed, on an exception, by the
    [catch] block) does. *)
Lemma scanWorker_inv (job : Job) (w w' : World) (r : result JobReturn) :
  scanWorker job env w = (r, w') ->
  exists pre rest tl f,
    attempt_script job env (tool_count w) = (pre ++ rest)%list /\
    Step (pre ++ tl) w w' /\
    scans w' = update_rows (scanId job) f (scans w) /\
    keeps f /\
    ((r = Ok (MkJobReturn true (length (inserted pre))) /\ rest = [] /\
      tl = [] /\
      forall row, status (f row) = complete /\ progress (f row) = 100%Z /\
                  error_message (f row) = error_message row) \/
     (exists e, r = Throw e /\ rest <> [] /\ cause env (scanType job) e /\
        ((tl = [EvStatus (scanId job) error] /\
          io_fault env (pred (io_count w')) = None /\
          forall row, status (f row) = error /\
                      error_message (f row) = Some (message e)) \/
         (tl = [] /\ io_fault env (pred (io_count w')) <> None)))).
Proof.
  unfold scanWorker, try_catchM; intros H.
  destruct (scanWorker_try job env w) as [rt w1] eqn:Ht.
  apply scanWorker_try_inv in Ht.
  destruct Ht as (pre & rest & f & Hscript & S1 & Hs1 & Hid
                  & [(-> & -> & Hf)|(e & -> & Hne & Hc)]).
  - injection H as <- <-.
    exists pre, [], [], f; rewrite app_nil_r.
    split; [now rewrite app_nil_r in Hscript|]. split; [exact S1|]. split; [exact Hs1|].
    split; [exact Hid|]. left; auto.
  - unfold scanWorker_catch, bind in H.
    destruct (update_scans (scanId job) error (mark_failed (message e)) env w1)
      as [[[]|e2] w2] eqn:H2;
      apply update_scans_inv in H2;
      destruct H2 as (Hio & [(? & Hnf & S2 & Hs2)|(e' & He & Hinj & S2 & Hs2)]);
      try discriminate; injection H as <- <-.
    + exists pre, rest, [EvStatus (scanId job) error],
        (fun r => set_status error
                    (mark_failed (message e) (S (io_count w1)) (f r))).
      split; [exact Hscript|]. split; [exact (Step_trans S1 S2)|].
      split; [rewrite Hs2, Hs1, update_rows_compose;
              [reflexivity|intros r; apply Hid]|].
      split; [intros row; exact (Hid row)|].
      right; exists e. split; [reflexivity|]. split; [exact Hne|].
      split; [exact Hc|]. left; rewrite Hio; simpl; auto.
    + injection He as <-.
      exists pre, rest, [], f.
      split; [exact Hscript|]. split; [exact (Step_trans S1 S2)|].
      split; [congruence|]. split; [exact Hid|].
      right; exists e2. split; [reflexivity|]. split; [exact Hne|].
      split; [left; red; eauto|].
      right; rewrite Hio; simpl; split; [reflexivity|congruence].
Qed.

End Attempt.

(** ** What the scripts contain *)

Lemma status_writes_app (a b : list Event) :
  status_writes (a ++ b) = (status_writes a ++ status_writes b)%list.
Proof. apply flat_map_app. Qed.

Lemma progress_reports_app (a b : list Event) :
  progress_reports (a ++ b) = (progress_reports a ++ progress_reports b)%list.
Proof. apply flat_map_app. Qed.

Lemma backoffs_app (a b : list Event) :
  backoffs (a ++ b) = (backoffs a ++ backoffs b)%list.
Proof. apply flat_map_app. Qed.

Lemma produced_app (a b : list Event) :
  produced (a ++ b) = (produced a ++ produced b)%list.
Proof. apply flat_map_app. Qed.

Lemma inserts_only (g : RawFinding -> ScanResultRow) (l : list RawFinding) :
  let evs := map (fun f => EvInsert (g f)) l in
  inserted evs = map g l /\ status_writes evs = [] /\
  progress_reports evs = [] /\ backoffs evs = [] /\
  adapters_invoked evs = [] /\ produced evs = [].
Proof.
  induction l as [|f l (H1 & H2 & H3 & H4 & H5 & H6)]; simpl; [auto 10|].
  rewrite H1; auto 10.
Qed.

Section Scripts.
Variables (env : Env) (sid target scanType : string) (n : nat).

Lemma exec_script_status :
  status_writes (exec_script sid target scanType env n) = [] /\
  backoffs (exec_script sid target scanType env n) = [].
Proof.
  unfold exec_script.
  destruct (dispatch_script target scanType env n) as [[evs results]|] eqn:E;
    [|auto].
  destruct (dispatch_script_events _ _ _ _ E) as (_ & Hs & Hb & _).
  destruct (inserts_only (persistedRow sid) results) as (_ & Hs' & _ & Hb' & _).
  rewrite !status_writes_app, !backoffs_app, Hs, Hs', Hb, Hb'; auto.
Qed.

Lemma progress_of_script (evs : list Event) (results : list RawFinding) :
  progress_reports
    ([EvProgress 10] ++ evs ++ [EvProgress 80]
     ++ map (fun f => EvInsert (persistedRow sid f)) results
     ++ [EvProgress 100])
  = (10%Z :: progress_reports evs ++ [80; 100]%Z)%list.
Proof.
  destruct (inserts_only (persistedRow sid) results) as (_ & _ & H & _).
  now rewrite !progress_reports_app, H.
Qed.

Lemma exec_script_progress :
  progress_reports (exec_script sid target scanType env n)
  = milestones scanType.
Proof.
  unfold exec_script, milestones, supported, dispatch_script.
  destruct (String.eqb scanType "nmap") eqn:E1;
    [rewrite (proj1 (String.eqb_eq _ _) E1), progress_of_script; reflexivity|].
  destruct (String.eqb scanType "nikto") eqn:E2;
    [rewrite (proj1 (String.eqb_eq _ _) E2), progress_of_script; reflexivity|].
  destruct (String.eqb scanType "sqlmap") eqn:E3;
    [rewrite (proj1 (String.eqb_eq _ _) E3), progress_of_script; reflexivity|].
  destruct (String.eqb scanType "zap") eqn:E4;
    [rewrite (proj1 (String.eqb_eq _ _) E4), progress_of_script; reflexivity|].
  destruct (String.eqb scanType "comprehensive") eqn:E5;
    [rewrite progress_of_script|]; reflexivity.
Qed.

Lemma adapters_of_script (evs : list Event) (results : list RawFinding) :
  adapters_invoked
    ([EvProgress 10] ++ evs ++ [EvProgress 80]
     ++ map (fun f => EvInsert (persistedRow sid f)) results
     ++ [EvProgress 100])
  = adapters_invoked evs.
Proof.
  destruct (inserts_only (persistedRow sid) results)
    as (_ & _ & _ & _ & H & _).
  rewrite !adapters_invoked_app, H; simpl; now rewrite app_nil_r.
Qed.

Lemma exec_script_adapters :
  adapters_invoked (exec_script sid target scanType env n)
  = adapters_of scanType.
Proof.
  unfold exec_script, adapters_of, dispatch_script.
  destruct (String.eqb scanType "nmap");
    [now rewrite adapters_of_script|].
  destruct (String.eqb scanType "nikto");
    [now rewrite adapters_of_script|].
  destruct (String.eqb scanType "sqlmap");
    [now rewrite adapters_of_script|].
  destruct (String.eqb scanType "zap");
    [now rewrite adapters_of_script|].
  destruct (String.eqb scanType "comprehensive");
    [now rewrite adapters_of_script|].
  reflexivity.
Qed.

End Scripts.

Lemma milestones_increasing (scanType : string) :
  increasing (milestones scanType) = true.
Proof.
  unfold milestones.
  destruct (String.eqb scanType "comprehensive"), (supported scanType);
    reflexivity.
Qed.

Lemma increasing_prefix (a b : list Z) :
  increasing (a ++ b) = true -> increasing a = true.
Proof.
  induction a as [|x [|y a] IH]; simpl; intros H; auto.
  apply andb_true_iff in H; destruct H as [Hxy H].
  rewrite Hxy; apply IH, H.
Qed.

(** ** What a prefix of an attempt's script contains *)

Open Scope list_scope.

Section AttemptPrefix.
Variables (env : Env) (job : Job) (n : nat) (pre rest : list Event).
Hypothesis Hscript : attempt_script job env n = (pre ++ rest)%list.

Lemma attempt_prefix_progress :
  progress_reports pre ++ progress_reports rest = milestones (scanType job).
Proof.
  rewrite <- progress_reports_app, <- Hscript; unfold attempt_script.
  rewrite !progress_reports_app, exec_script_progress; simpl.
  now rewrite app_nil_r.
Qed.

Lemma attempt_prefix_increasing : increasing (progress_reports pre) = true.
Proof.
  apply increasing_prefix with (b := progress_reports rest).
  rewrite attempt_prefix_progress; apply milestones_increasing.
Qed.

Lemma attempt_prefix_adapters :
  adapters_invoked pre ++ adapters_invoked rest = adapters_of (scanType job).
Proof.
  rewrite <- adapters_invoked_app, <- Hscript; unfold attempt_script.
  rewrite !adapters_invoked_app, exec_script_adapters; simpl.
  now rewrite app_nil_r.
Qed.

Lemma attempt_prefix_backoffs : backoffs pre = [].
Proof.
  assert (H : backoffs (pre ++ rest) = []).
  { rewrite <- Hscript; unfold attempt_script.
    rewrite !backoffs_app, (proj2 (exec_script_status _ _ _ _ _)).
    reflexivity. }
  rewrite backoffs_app in H; now apply app_eq_nil in H.
Qed.

Lemma attempt_status_writes :
  status_writes pre ++ status_writes rest = [running; complete].
Proof.
  rewrite <- status_writes_app, <- Hscript; unfold attempt_script.
  rewrite !status_writes_app, (proj1 (exec_script_status _ _ _ _ _)).
  reflexivity.
Qed.

Lemma attempt_prefix_status :
  (rest = [] -> status_writes pre = [running; complete]) /\
  (rest <> [] -> status_writes pre = [] \/ status_writes pre = [running]).
Proof.
  pose proof attempt_status_writes as H; split.
  - intros ->; simpl in H; now rewrite app_nil_r in H.
  - intros Hne.
    destruct (exists_last Hne) as (rest' & x & ->).
    assert (Hx : x = EvStatus (scanId job) complete).
    { unfold attempt_script in Hscript.
      rewrite (app_assoc pre), (app_assoc [_]) in Hscript.
      now apply app_inj_tail in Hscript. }
    subst x; rewrite status_writes_app in H; simpl in H.
    destruct (status_writes pre) as [|a [|b l]]; auto.
    + right; simpl in H; injection H as -> _; reflexivity.
    + exfalso; simpl in H; injection H as _ _ H.
      now destruct l, (status_writes rest').
Qed.

Lemma attempt_prefix_inserted :
  exists persisted waiting,
    produced pre = (persisted ++ waiting)%list /\
    inserted pre = map (persistedRow (scanId job)) persisted /\
    (rest = [] -> waiting = []).
Proof.
  unfold attempt_script, exec_script in Hscript.
  destruct (dispatch_script (target job) (scanType job) env n)
    as [[evs results]|] eqn:E.
  - destruct (dispatch_script_events _ _ _ _ E) as (Hi & _ & _ & Hp).
    destruct (inserts_only (persistedRow (scanId job)) results)
      as (Hins & _ & _ & _ & _ & Hprod).
    set (evI := map (fun f => EvInsert (persistedRow (scanId job) f)) results)
      in *.
    assert (Hs : ([EvStatus (scanId job) running; EvProgress 10] ++ evs
                  ++ [EvProgress 80])
                 ++ evI ++ [EvProgress 100; EvStatus (scanId job) complete]
                 = pre ++ rest).
    { rewrite <- Hscript; simpl; f_equal; f_equal.
      rewrite <- !app_assoc; simpl; rewrite <- !app_assoc; reflexivity. }
    apply app_eq_app in Hs; destruct Hs as (m & [[H1 H2]|[H1 H2]]).
    + (* [pre] stops before the first insert *)
      exists [], (produced pre); split; [reflexivity|]; split.
      * assert (H : inserted (pre ++ m) = []).
        { rewrite <- H1, !inserted_app, Hi; reflexivity. }
        rewrite inserted_app in H; now apply app_eq_nil in H.
      * intros ->; exfalso; destruct m; [destruct evI|]; discriminate.
    + apply app_eq_app in H2; destruct H2 as (m' & [[H2 H3]|[H2 H3]]).
      * (* [pre] stops inside the inserts *)
        unfold evI in H2; apply map_eq_app in H2.
        destruct H2 as (done & todo & Hres & Hdone & Htodo).
        exists done, todo; rewrite H1.
        rewrite !produced_app, !inserted_app, Hi, Hp; simpl.
        rewrite <- Hdone.
        destruct (inserts_only (persistedRow (scanId job)) done)
          as (-> & _ & _ & _ & _ & ->).
        rewrite !app_nil_r; split; [exact Hres|]; split; [reflexivity|].
        intros Hr; rewrite Hr in H3; now destruct m'.
      * (* [pre] covers the inserts and maybe what follows them *)
        exists results, []; rewrite H1, H2.
        rewrite !produced_app, !inserted_app, Hi, Hp, Hins, Hprod; simpl.
        assert (Hm : inserted m' = [] /\ produced m' = []).
        { assert (H : inserted (m' ++ rest) = [] /\ produced (m' ++ rest) = [])
            by (rewrite <- H3; auto).
          rewrite inserted_app, produced_app in H; destruct H as [Ha Hb].
          apply app_eq_nil in Ha, Hb; tauto. }
        destruct Hm as [-> ->]; rewrite !app_nil_r; auto.
  - exists [], (produced pre); split; [reflexivity|]; split.
    + assert (H : inserted (pre ++ rest) = []) by (now rewrite <- Hscript).
      rewrite inserted_app in H; now apply app_eq_nil in H.
    + intros ->; rewrite app_nil_r in Hscript; now subst pre.
Qed.

End AttemptPrefix.

(** ** The two phases of an attempt: collecting, then persisting *)

Section AttemptPhases.
Variables (env : Env) (job : Job) (n : nat) (pre rest : list Event).
Hypothesis Hscript : attempt_script job env n = (pre ++ rest)%list.

(** What an attempt did splits in two: while it collects, nothing is
    inserted; once it inserts, no adapter is invoked any more, and by then
    every adapter of the scan type has returned and progress 80 was the last
    report. *)
Lemma attempt_prefix_phases :
  exists collecting persisting persisted waiting,
    pre = collecting ++ persisting /\
    inserted collecting = [] /\
    adapters_invoked persisting = [] /\
    inserted persisting = map (persistedRow (scanId job)) persisted /\
    produced collecting = persisted ++ waiting /\
    (persisted <> [] ->
     adapters_invoked collecting = adapters_of (scanType job) /\
     exists earlier, progress_reports collecting = earlier ++ [80%Z]) /\
    (rest = [] -> waiting = []).
Proof.
  pose proof (exec_script_adapters env (scanId job) (target job)
                                   (scanType job) n) as Hall.
  unfold attempt_script, exec_script in Hscript.
  unfold exec_script in Hall.
  destruct (dispatch_script (target job) (scanType job) env n)
    as [[evs results]|] eqn:E.
  - destruct (dispatch_script_events _ _ _ _ E) as (Hi & _ & _ & Hp).
    rewrite adapters_of_script in Hall.
    destruct (inserts_only (persistedRow (scanId job)) results)
      as (Hins & _ & _ & _ & Hadap & Hprod).
    set (evI := map (fun f => EvInsert (persistedRow (scanId job) f)) results)
      in *.
    set (A := [EvStatus (scanId job) running; EvProgress 10] ++ evs
              ++ [EvProgress 80]).
    assert (HA : inserted A = [] /\ produced A = results /\
                 adapters_invoked A = adapters_of (scanType job) /\
                 exists earlier, progress_reports A = earlier ++ [80%Z]).
    { unfold A.
      rewrite !inserted_app, !produced_app, !adapters_invoked_app,
        !progress_reports_app, Hi, Hp, Hall; simpl.
      rewrite !app_nil_r; repeat split.
      now exists (10%Z :: progress_reports evs). }
    destruct HA as (HAi & HAp & HAa & HAr).
    assert (Hs : A ++ evI ++ [EvProgress 100; EvStatus (scanId job) complete]
                 = pre ++ rest).
    { rewrite <- Hscript; unfold A; simpl; f_equal; f_equal.
      rewrite <- !app_assoc; simpl; rewrite <- !app_assoc; reflexivity. }
    apply app_eq_app in Hs; destruct Hs as (m & [[H1 H2]|[H1 H2]]).
    + (* the attempt stopped while collecting *)
      exists pre, [], [], (produced pre); rewrite app_nil_r.
      split; [reflexivity|]. split.
      { assert (H : inserted (pre ++ m) = []) by (now rewrite <- H1).
        rewrite inserted_app in H; now apply app_eq_nil in H. }
      split; [reflexivity|]. split; [reflexivity|]. split; [reflexivity|].
      split; [intros H; now elim H|].
      intros ->; exfalso; destruct m; [destruct evI|]; discriminate.
    + apply app_eq_app in H2; destruct H2 as (m' & [[H2 H3]|[H2 H3]]).
      * (* the attempt stopped among the inserts *)
        unfold evI in H2; apply map_eq_app in H2.
        destruct H2 as (done & todo & Hres & Hdone & Htodo).
        destruct (inserts_only (persistedRow (scanId job)) done)
          as (Hdi & _ & _ & _ & Hda & _).
        exists A, m, done, todo; rewrite <- Hdone.
        split; [now rewrite Hdone|]. split; [exact HAi|]. split; [exact Hda|].
        split; [exact Hdi|]. split; [now rewrite HAp|].
        split; [intros _; split; [exact HAa|exact HAr]|].
        intros Hr; rewrite Hr in H3; now destruct m'.
      * (* every finding was inserted *)
        assert (Hm : inserted m' = [] /\ adapters_invoked m' = []).
        { assert (H : inserted (m' ++ rest) = []
                      /\ adapters_invoked (m' ++ rest) = [])
            by (rewrite <- H3; auto).
          rewrite inserted_app, adapters_invoked_app in H.
          destruct H as [Ha Hb]; apply app_eq_nil in Ha, Hb; tauto. }
        destruct Hm as [Hmi Hma].
        exists A, m, results, []; rewrite H2.
        rewrite inserted_app, adapters_invoked_app, Hins, Hadap, Hmi, Hma,
          !app_nil_r.
        split; [now rewrite H1, H2|]. split; [exact HAi|]. split; [reflexivity|].
        split; [reflexivity|]. split; [exact HAp|].
        split; [intros _; split; [exact HAa|exact HAr]|reflexivity].
  - exists pre, [], [], (produced pre); rewrite app_nil_r.
    split; [reflexivity|]. split.
    { assert (H : inserted (pre ++ rest) = []) by (now rewrite <- Hscript).
      rewrite inserted_app in H; now apply app_eq_nil in H. }
    split; [reflexivity|]. split; [reflexivity|]. split; [reflexivity|].
    split; [intros H; now elim H|].
    intros ->; rewrite app_nil_r in Hscript; now subst pre.
Qed.

End AttemptPhases.

(** ** The whole job: attempts and retries *)

Lemma follows_weaken (l : list ScanStatus) :
  follows error l = true -> follows running l = true.
Proof.
  destruct l as [|s l]; simpl; [reflexivity|].
  now destruct s.
Qed.

Lemma follows_failed_attempt (fl l : list ScanStatus) :
  fl = [] \/ fl = [running] \/ fl = [error] \/ fl = [running; error] ->
  follows error l = true -> follows error (fl ++ l) = true.
Proof.
  intros [-> | [-> | [-> | ->]]] H; simpl; auto using follows_weaken.
Qed.

Lemma Step_backoff (d : Z) (w : World) :
  Step [EvBackoff d] w (emit (EvBackoff d) w).
Proof.
  unfold Step, emit; simpl; rewrite app_nil_r, Nat.add_0_r; auto.
Qed.

Section Job.
Variables (env : Env) (job : Job).

Lemma retry_inv (n : nat) :
  forall (made : nat) (w w' : World) (st : JobState),
  retry n made job env w = (st, w') ->
  exists delta f,
    Step delta w w' /\
    scans w' = update_rows (scanId job) f (scans w) /\
    keeps f /\
    engine_status_order (status_writes delta) = true /\
    (exists k, (k <= n)%nat /\
       backoffs delta = map backoff (seq (S made) k) /\
       forall reason, st = failed reason -> k = n) /\
    match st with
    | completed ret =>
        forall row, status (f row) = complete /\ progress (f row) = 100%Z
    | failed reason =>
        (exists e, cause env (scanType job) e /\ reason = message e) /\
        (io_fault env (pred (io_count w')) = None ->
         forall row, status (f row) = error /\
                     error_message (f row) = Some reason)
    end.
Proof.
  induction n as [|n IH]; intros made w w' st H; simpl in H;
    destruct (scanWorker job env w) as [[ret|e] w1] eqn:Hw;
    apply scanWorker_inv in Hw;
    destruct Hw as (pre & rest & tl & f & Hscript & S1 & Hs1 & Hid & Hcase);
    destruct Hcase as [(Hr & -> & -> & Hf)|(e' & Hr & Hne & Hc & Htl)];
    try discriminate.
  - (* the only attempt succeeds *)
    injection H as <- <-; exists (pre ++ []), f.
    pose proof (proj1 (attempt_prefix_status _ _ Hscript) eq_refl) as Hsw.
    pose proof (attempt_prefix_backoffs _ _ Hscript) as Hbk.
    rewrite app_nil_r in *; rewrite Hsw.
    split; [exact S1|]. split; [exact Hs1|]. split; [exact Hid|].
    split; [reflexivity|].
    split; [|intros row; split; apply Hf].
    exists 0%nat; split; [lia|]; split; [exact Hbk|discriminate].
  - (* the last attempt fails *)
    injection H as <- <-; injection Hr as <-.
    exists (pre ++ tl), f.
    split; [exact S1|]. split; [exact Hs1|]. split; [exact Hid|].
    split.
    { rewrite status_writes_app.
      replace (status_writes tl) with (status_writes tl ++ [])
        by apply app_nil_r.
      rewrite app_assoc; apply follows_failed_attempt; [|reflexivity].
      destruct (proj2 (attempt_prefix_status _ _ Hscript) Hne) as [->| ->];
        destruct Htl as [(-> & _)|(-> & _)]; simpl; auto. }
    split.
    { exists 0%nat; repeat split; auto.
      rewrite backoffs_app, (attempt_prefix_backoffs _ _ Hscript).
      destruct Htl as [(-> & _)|(-> & _)]; reflexivity. }
    split; [eauto|].
    intros Hio; destruct Htl as [(_ & _ & Hf)|(_ & Hbad)]; [exact Hf|].
    now elim Hbad.
  - (* the first attempt succeeds *)
    injection H as <- <-; exists (pre ++ []), f.
    pose proof (proj1 (attempt_prefix_status _ _ Hscript) eq_refl) as Hsw.
    pose proof (attempt_prefix_backoffs _ _ Hscript) as Hbk.
    rewrite app_nil_r in *; rewrite Hsw.
    split; [exact S1|]. split; [exact Hs1|]. split; [exact Hid|].
    split; [reflexivity|].
    split; [|intros row; split; apply Hf].
    exists 0%nat; split; [lia|]; split; [exact Hbk|discriminate].
  - (* the first attempt fails and the job is retried *)
    injection Hr as <-.
    apply IH in H.
    destruct H as (delta & g & S2 & Hs2 & Hgid & Hord & (k & Hk & Hb & Hkn)
                   & Hst).
    exists ((pre ++ tl) ++ [EvBackoff (backoff (S made))] ++ delta),
           (fun r => g (f r)).
    split.
    { apply (Step_trans S1), (Step_trans (Step_backoff _ _)), S2. }
    split.
    { rewrite Hs2; simpl; rewrite Hs1.
      apply update_rows_compose; intros r; apply Hid. }
    split.
    { intros row; destruct (Hgid (f row)) as [Gi Gp], (Hid row) as [Fi Fp].
      split; [congruence|].
      destruct Gp as [Gp|Gp]; [rewrite Gp; exact Fp|now right]. }
    split.
    { rewrite !status_writes_app; simpl.
      apply follows_failed_attempt; [|exact Hord].
      destruct (proj2 (attempt_prefix_status _ _ Hscript) Hne) as [->| ->];
        destruct Htl as [(-> & _)|(-> & _)]; simpl; auto. }
    split.
    { exists (S k); split; [lia|]; split.
      - rewrite !backoffs_app, (attempt_prefix_backoffs _ _ Hscript), Hb.
        destruct Htl as [(-> & _)|(-> & _)]; reflexivity.
      - intros reason Hfr; f_equal; eauto. }
    destruct st as [ret|reason].
    + intros row; apply Hst.
    + destruct Hst as [Hcause Hrow]; split; [exact Hcause|].
      intros Hio row; apply (Hrow Hio).
Qed.

End Job.

(** ** The engine's properties *)

Lemma attempt_script_produced (env : Env) (job : Job) (n : nat)
    (evs : list Event) (results : list RawFinding) :
  dispatch_script (target job) (scanType job) env n = Some (evs, results) ->
  produced (attempt_script job env n) = results.
Proof.
  intros H; unfold attempt_script, exec_script; rewrite H.
  destruct (dispatch_script_events _ _ _ _ H) as (_ & _ & _ & Hp).
  destruct (inserts_only (persistedRow (scanId job)) results)
    as (_ & _ & _ & _ & _ & Hnone).
  rewrite !produced_app, Hp, Hnone; simpl; now rewrite !app_nil_r.
Qed.

Lemma Step_trace (delta : list Event) (w w' : World) :
  Step delta w w' -> trace w' = trace w ++ delta.
Proof.
  intros (Hl & _); unfold trace.
  now rewrite Hl, rev_app_distr, rev_involutive.
Qed.

Lemma follows_complete_last (prev : ScanStatus) (a b : list ScanStatus) :
  follows prev (a ++ complete :: b) = true -> b = [].
Proof.
  revert prev; induction a as [|s a IH]; intros prev H; simpl in H.
  - apply andb_true_iff in H; destruct H as [_ H].
    now destruct b.
  - apply andb_true_iff in H; destruct H as [_ H]; now apply IH in H.
Qed.

Lemma follows_written (prev : ScanStatus) (l : list ScanStatus) (s : ScanStatus) :
  follows prev l = true -> In s l -> s = running \/ s = complete \/ s = error.
Proof.
  revert prev; induction l as [|x l IH]; intros prev H Hin; [now elim Hin|].
  simpl in H; apply andb_true_iff in H; destruct H as [Ha H].
  destruct Hin as [<-|Hin].
  - destruct prev, x; try discriminate; auto.
  - now apply (IH x).
Qed.

(** C1, as the code has it: over a whole job (all its attempts) the status
    writes follow the engine's order.  The first write is [running] or
    [error]; after [running] comes [running], [complete] or [error]; after
    [error] comes [running] (the retry) or [error]; nothing is written
    after [complete]; [pending] and [cancelled] are never written. *)
Theorem status_writes_of_a_job (job : Job) (env : Env) (w : World) :
  exists delta,
    trace (snd (processJob job env w)) = trace w ++ delta /\
    engine_status_order (status_writes delta) = true /\
    (forall a b, status_writes delta = a ++ complete :: b -> b = []) /\
    (forall s, In s (status_writes delta) ->
               s = running \/ s = complete \/ s = error).
Proof.
  destruct (processJob job env w) as [st w'] eqn:H.
  apply retry_inv in H.
  destruct H as (delta & f & Hstep & _ & _ & Hord & _).
  exists delta; split; [exact (Step_trace Hstep)|]. split; [exact Hord|].
  split.
  - intros a b Hab; rewrite Hab in Hord.
    exact (@follows_complete_last error a b Hord).
  - intros s; exact (@follows_written error _ s Hord).
Qed.

(** C1 fails as stated: the store rejects the first INSERT of an nmap scan;
    the attempt sets the scan to [error]; the retry sets it back to
    [running] and the scan ends [complete]. *)
Lemma error_is_left_on_retry :
  let env := outage [3%nat] in
  let after_first_attempt := snd (scanWorker nmap_job env store0) in
  let final := snd (processJob nmap_job env store0) in
  option_map status (find_scan "scan-1" (scans after_first_attempt))
    = Some error /\
  status_writes (trace final) = [running; error; running; complete] /\
  option_map status (find_scan "scan-1" (scans final)) = Some complete /\
  terminal_is_final pending (status_writes (trace final)) = false.
Proof. vm_compute; auto. Qed.

(** C2, on the code: a comprehensive scan never invokes the ZAP adapter;
    when the attempt succeeds the adapters invoked are nmap, nikto, sqlmap,
    in that order, and the raw findings are those of these three. *)
Theorem comprehensive_scan_skips_zap
    (env : Env) (w : World) (sid target : string) :
  let job := MkJob sid target "comprehensive" in
  exists delta,
    trace (snd (scanWorker job env w)) = trace w ++ delta /\
    ~ In zap (adapters_invoked delta) /\
    (forall ret, fst (scanWorker job env w) = Ok ret ->
       adapters_invoked delta = [nmap; nikto; sqlmap] /\
       produced delta
       = adapterFindings nmap target env (tool_count w)
         ++ adapterFindings nikto target env (S (tool_count w))
         ++ adapterFindings sqlmap target env (S (S (tool_count w)))).
Proof.
  intros job.
  destruct (scanWorker job env w) as [r w'] eqn:H.
  apply scanWorker_inv in H.
  destruct H as (pre & rest & tl & f & Hscript & Hstep & _ & _ & Hcase).
  exists (pre ++ tl); split; [exact (Step_trace Hstep)|].
  pose proof (attempt_prefix_adapters _ _ Hscript) as Had.
  change (adapters_of (scanType job)) with [nmap; nikto; sqlmap] in Had.
  assert (Htl : adapters_invoked tl = [] /\ produced tl = []).
  { destruct Hcase as [(_ & _ & -> & _)|(e & _ & _ & _ & [(-> & _)|(-> & _)])];
      auto. }
  destruct Htl as [Ht Hp].
  rewrite adapters_invoked_app, produced_app, Ht, Hp, !app_nil_r.
  split.
  - intros Hin.
    assert (Hz : In zap [nmap; nikto; sqlmap])
      by (rewrite <- Had; apply in_or_app; auto).
    simpl in Hz; intuition discriminate.
  - simpl; intros ret Hret.
    destruct Hcase as [(_ & -> & _)|(e & -> & _)]; [|discriminate].
    rewrite app_nil_r in Hscript, Had; split; [exact Had|].
    rewrite <- Hscript.
    now apply attempt_script_produced
      with (evs := [EvProgress 20;
                    EvAdapter nmap
                      (adapterFindings nmap target env (tool_count w));
                    EvProgress 40;
                    EvAdapter nikto
                      (adapterFindings nikto target env (S (tool_count w)));
                    EvProgress 60;
                    EvAdapter sqlmap
                      (adapterFindings sqlmap target env
                         (S (S (tool_count w))))]).
Qed.

(** C2 at the failing input: every tool times out, the scan completes, and
    the adapters invoked are three; the ZAP findings are not among the raw
    findings. *)
Lemma comprehensive_scan_runs_three_adapters :
  let final := snd (processJob comprehensive_job calm store0) in
  adapters_invoked (trace final) = [nmap; nikto; sqlmap] /\
  produced (trace final)
  = getSimulatedNmapResults "example.com"
    ++ getSimulatedNiktoResults "example.com"
    ++ getSimulatedSqlmapResults "example.com" /\
  length (scan_results final) = 5%nat.
Proof. vm_compute; auto. Qed.

(** C3, as the code has it: an attempt first collects and then persists.
    While it collects, nothing is inserted; once the first row is inserted,
    every adapter of the scan type has returned, progress 80 was the last
    report, and no adapter is invoked any more.  The rows inserted are those
    added to the table; they hold, one row each and in production order, a
    prefix of the findings the adapters returned (all of them when the
    attempt succeeds), each row carrying the scan id and the classification
    of its own finding.  Whatever fails, the rows stored before stay as they
    are: table [scan_results] only grows at its end, in an attempt and over
    the whole job with its retries. *)
Theorem findings_persisted_one_by_one (job : Job) (env : Env) (w : World) :
  (exists collecting persisting rows waiting,
     trace (snd (scanWorker job env w))
     = trace w ++ collecting ++ persisting /\
     inserted collecting = [] /\
     adapters_invoked persisting = [] /\
     inserted persisting = rows /\
     (rows <> [] ->
      adapters_invoked collecting = adapters_of (scanType job) /\
      exists earlier, progress_reports collecting = earlier ++ [80%Z]) /\
     produced collecting = map finding rows ++ waiting /\
     scan_results (snd (scanWorker job env w)) = scan_results w ++ rows /\
     Forall (fun row =>
               scan_id row = scanId job /\
               analyzeVulnerability (finding row) = Ok (ai_analysis row))
            rows /\
     (forall ret, fst (scanWorker job env w) = Ok ret -> waiting = [])) /\
  (exists rows,
     scan_results (snd (processJob job env w)) = scan_results w ++ rows).
Proof.
  split.
  - destruct (scanWorker job env w) as [r w'] eqn:H; cbn [fst snd].
    apply scanWorker_inv in H.
    destruct H as (pre & rest & tl & f & Hscript & Hstep & _ & _ & Hcase).
    destruct (attempt_prefix_phases _ _ Hscript)
      as (collecting & persisting & persisted & waiting
          & Hpre & Hci & Hpa & Hpi & Hprod & Hfirst & Hall).
    assert (Htl : inserted tl = [] /\ adapters_invoked tl = []).
    { destruct Hcase
        as [(_ & _ & -> & _)|(e & _ & _ & _ & [(-> & _)|(-> & _)])]; auto. }
    destruct Htl as [Hti Hta].
    exists collecting, (persisting ++ tl),
      (map (persistedRow (scanId job)) persisted), waiting.
    split.
    { rewrite (Step_trace Hstep), Hpre, <- !app_assoc; reflexivity. }
    split; [exact Hci|].
    split; [now rewrite adapters_invoked_app, Hpa, Hta|].
    split; [now rewrite inserted_app, Hpi, Hti, app_nil_r|].
    split.
    { intros Hne; apply Hfirst; intros ->; now elim Hne. }
    split.
    { rewrite map_map; simpl; now rewrite map_id. }
    split.
    { destruct Hstep as (_ & -> & _).
      now rewrite Hpre, !inserted_app, Hci, Hpi, Hti, app_nil_r. }
    split.
    { apply Forall_forall; intros row Hin; apply in_map_iff in Hin.
      destruct Hin as (x & <- & _); split; [reflexivity|].
      apply analyzeVulnerability_classify. }
    simpl; intros ret Hret.
    destruct Hcase as [(_ & -> & _)|(e & -> & _)]; [auto|discriminate].
  - destruct (processJob job env w) as [st w'] eqn:H; cbn [fst snd].
    apply retry_inv in H.
    destruct H as (delta & f & (_ & Hres & _) & _).
    exists (inserted delta); exact Hres.
Qed.

(** C3 fails as stated.  In a comprehensive scan where nothing fails, the
    nikto and sqlmap adapters are invoked while the two findings of nmap
    still wait for their insert.  And when the progress report after the
    nmap stage is rejected, the attempt ends with two findings produced and
    none persisted. *)
Lemma findings_wait_for_the_other_adapters :
  persisted_as_produced []
    (trace (snd (scanWorker comprehensive_job calm store0))) = false /\
  let lost := snd (scanWorker comprehensive_job (outage [3%nat]) store0) in
  length (produced (trace lost)) = 2%nat /\ scan_results lost = [].
Proof. vm_compute; auto. Qed.

Lemma backoff_schedule (k : nat) :
  (k <= 2)%nat ->
  map backoff (seq 1 k) = firstn k [2000; 4000]%Z.
Proof.
  intros H; destruct k as [|[|[|k]]]; try reflexivity; lia.
Qed.

(** C4, as the code has it: a job is attempted at most 3 times, with delays
    of 2000 ms and then 4000 ms before the retries, and is failed after the
    third failed attempt.  Every failed attempt (not only the last) whose
    recording UPDATE is accepted leaves the scan with status [error] and
    [error_message] the message of the error it threw; so does the failed
    job, with its [failedReason]. *)
Theorem retries_and_error_message
    (job : Job) (env : Env) (w : World) (row0 : ScanRow) :
  find_scan (scanId job) (scans w) = Some row0 ->
  (forall e w1,
     scanWorker job env w = (Throw e, w1) ->
     io_fault env (pred (io_count w1)) = None ->
     exists row, find_scan (scanId job) (scans w1) = Some row /\
                 status row = error /\
                 error_message row = Some (message e)) /\
  (exists delta k,
     trace (snd (processJob job env w)) = trace w ++ delta /\
     (k <= 2)%nat /\ backoffs delta = firstn k [2000; 4000]%Z /\
     forall reason w',
       processJob job env w = (failed reason, w') ->
       backoffs delta = [2000; 4000]%Z /\
       (io_fault env (pred (io_count w')) = None ->
        exists row, find_scan (scanId job) (scans w') = Some row /\
                    status row = error /\
                    error_message row = Some reason)).
Proof.
  intros Hrow; split.
  - intros e w1 H Hio.
    apply scanWorker_inv in H.
    destruct H as (pre & rest & tl & f & _ & _ & Hs & Hid & Hcase).
    destruct Hcase as [(Hr & _)|(e' & Hr & _ & _ & [(_ & _ & Hf)|(_ & Hbad)])];
      [discriminate| |now elim Hbad].
    injection Hr as <-.
    exists (f row0); rewrite Hs, (find_scan_update_rows _ _ _ (fun r => proj1 (Hid r))), Hrow.
    split; [reflexivity|apply Hf].
  - destruct (processJob job env w) as [st w'] eqn:H; cbn [fst snd].
    apply retry_inv in H.
    destruct H as (delta & f & Hstep & Hs & Hid & _ & (k & Hk & Hb & Hkn)
                   & Hst).
    exists delta, k.
    split; [exact (Step_trace Hstep)|]. split; [exact Hk|].
    split; [rewrite Hb; now apply backoff_schedule|].
    intros reason w2 Heq; injection Heq as -> <-.
    rewrite Hb, (Hkn reason eq_refl); split; [reflexivity|].
    intros Hio; destruct Hst as [_ Hf].
    exists (f row0); simpl; rewrite Hs, (find_scan_update_rows _ _ _ (fun r => proj1 (Hid r))), Hrow.
    split; [reflexivity|apply (Hf Hio)].
Qed.

Lemma retries_and_error_message_witness :
  let job := MkJob "scan-1" "example.com" "ftp" in
  (exists row, find_scan "scan-1" (scans (snd (scanWorker job calm store0)))
               = Some row /\
               status row = error /\
               error_message row = Some "Unsupported scan type: ftp") /\
  backoffs (trace (snd (processJob job calm store0))) = [2000; 4000]%Z.
Proof.
  intros job.
  assert (Hrow : find_scan (scanId job) (scans store0)
                 = Some (MkScanRow "scan-1" pending 0 None None None))
    by (vm_compute; reflexivity).
  destruct (retries_and_error_message job calm store0 Hrow)
    as [Hattempt (delta & k & Htrace & _ & _ & Hfail)].
  split.
  - apply (Hattempt (MkError "Unsupported scan type: ftp")
                    (snd (scanWorker job calm store0)));
      vm_compute; reflexivity.
  - assert (Hjob : processJob job calm store0
                   = (failed "Unsupported scan type: ftp",
                      snd (processJob job calm store0)))
      by (vm_compute; reflexivity).
    destruct (Hfail _ _ Hjob) as [Hb _].
    rewrite Htrace, backoffs_app, Hb.
    vm_compute; reflexivity.
Defined.

(** C4 fails as stated: the store rejects the first INSERT of an nmap scan;
    the first attempt writes [error_message] although two attempts remain;
    the retry succeeds, and the completed scan keeps that message. *)
Lemma error_message_written_before_retries_are_exhausted :
  let env := outage [3%nat] in
  let after_first_attempt := snd (scanWorker nmap_job env store0) in
  let final := snd (processJob nmap_job env store0) in
  option_map error_message (find_scan "scan-1" (scans after_first_attempt))
    = Some (Some "Connection terminated unexpectedly") /\
  fst (processJob nmap_job env store0)
    = completed (MkJobReturn true 2) /\
  option_map status (find_scan "scan-1" (scans final)) = Some complete /\
  option_map error_message (find_scan "scan-1" (scans final))
    = Some (Some "Connection terminated unexpectedly").
Proof. vm_compute; auto. Qed.



(** With a store and a queue that accept every operation, an attempt on a
    supported scan type succeeds. *)
Lemma reliable_attempt_succeeds (job : Job) (env : Env) (w w' : World)
    (r : result JobReturn) :
  reliable env -> supported (scanType job) = true ->
  scanWorker job env w = (r, w') -> exists ret, r = Ok ret.
Proof.
  intros Hrel Hsup H; apply scanWorker_inv in H.
  destruct H as (pre & rest & tl & f & _ & _ & _ & _ & Hcase).
  destruct Hcase as [(-> & _)|(e & _ & _ & [(n & Hn)|(Hno & _)] & _)]; eauto.
  - now rewrite Hrel in Hn.
  - congruence.
Qed.






Lemma reliable_processResults (sid : string) (results : list RawFinding)
    (env : Env) (w : World) :
  reliable env ->
  fst (processResults sid results env w)
    = Ok (map (persistedRow sid) results) /\
  scan_results (snd (processResults sid results env w))
    = scan_results w ++ map (persistedRow sid) results.
Proof.
  intros Hrel.
  destruct (processResults sid results env w) as [r w'] eqn:H; cbn [fst snd].
  apply processResults_inv in H.
  destruct H as (pre & rest & -> & (_ & _ & Hres & _)
                 & [[-> ->]|(e & _ & (n & Hn) & _)]).
  - destruct (inserts_only (persistedRow sid) pre) as (Hi & _).
    rewrite app_nil_r, Hres; split; [reflexivity|].
    now rewrite <- Hi.
  - now rewrite Hrel in Hn.
Qed.

(** C8: classification never throws.  When an internal step of the analysis
    throws, the result is the fixed fallback with risk level info, score 0.0
    and confidence 0.3; and the loop of [executeScan] goes on: with a store
    that accepts every insert it persists a row for every finding, whatever
    the findings are. *)
Theorem classification_never_throws :
  (forall scanResult,
     exists analysis,
       analyzeVulnerability scanResult = Ok analysis /\
       forall e, performAnalysis scanResult = Throw e ->
         analysis = getFallbackAnalysis scanResult /\
         Analysis.risk_level analysis = info /\
         Analysis.cvss_score analysis = 0.0%float /\
         Analysis.confidence_score analysis = 0.3%float) /\
  (forall sid results env w,
     reliable env ->
     fst (processResults sid results env w)
       = Ok (map (persistedRow sid) results) /\
     scan_results (snd (processResults sid results env w))
       = scan_results w ++ map (persistedRow sid) results).
Proof.
  split; [|exact reliable_processResults].
  intros scanResult; exists (classify scanResult).
  split; [apply analyzeVulnerability_classify|].
  intros e He; unfold classify; rewrite He; auto.
Qed.

Lemma classification_never_throws_witness :
  (exists analysis,
     analyzeVulnerability odd_finding = Ok analysis /\
     Analysis.risk_level analysis = info /\
     Analysis.cvss_score analysis = 0.0%float /\
     Analysis.confidence_score analysis = 0.3%float) /\
  length (scan_results
            (snd (processResults "scan-1"
                    [odd_finding; sql_cve_finding] calm store0))) = 2%nat.
Proof.
  destruct classification_never_throws as [Hclassify Hloop].
  split.
  - destruct (Hclassify odd_finding) as (analysis & Hok & Hfallback).
    exists analysis; split; [exact Hok|].
    apply (Hfallback (MkError "toLowerCase is not a function")).
    reflexivity.
  - destruct (Hloop "scan-1" [odd_finding; sql_cve_finding] calm store0)
      as [_ ->]; [intros n; reflexivity|reflexivity].
Defined.

(** *** The [progress] column of the scan row *)

Section ProgressColumn.
Variable env : Env.

Lemma scanWorker_try_progress (job : Job) (w w' : World)
    (r : result JobReturn) :
  scanWorker_try job env w = (r, w') ->
  exists f,
    scans w' = update_rows (scanId job) f (scans w) /\
    (forall row, id (f row) = id row) /\
    forall row,
      match r with
      | Ok _ => progress (f row) = 100%Z /\ status (f row) = complete
      | Throw _ => progress (f row) = progress row
      end.
Proof.
  unfold scanWorker_try; intros H.
  set (sid := scanId job) in *.
  unfold bind at 1 in H.
  destruct (update_scans sid running mark_started env w) as [[[]|e] w1] eqn:H1;
    apply update_scans_inv in H1;
    destruct H1 as (_ & [(? & _ & _ & Hs1)|(e' & He & _ & _ & Hs1)]);
    try discriminate.
  2:{ injection H as <- <-; exists (fun r => r).
      split; [now rewrite Hs1, update_rows_same|auto]. }
  unfold bind at 1 in H.
  destruct (executeScan sid (target job) (scanType job) env w1)
    as [[rows|e] w2] eqn:H2;
    apply executeScan_inv in H2;
    destruct H2 as (pre & rest & _ & (Hs2 & _) & _).
  2:{ injection H as <- <-; eexists.
      split; [rewrite Hs2; exact Hs1|]. split; intros row; reflexivity. }
  unfold bind at 1 in H.
  destruct (update_scans sid complete mark_completed env w2)
    as [[[]|e] w3] eqn:H3;
    apply update_scans_inv in H3;
    destruct H3 as (_ & [(? & _ & _ & Hs3)|(e' & He & _ & _ & Hs3)]);
    try discriminate; injection H as <- <-.
  - eexists; split.
    { rewrite Hs3, Hs2, Hs1, update_rows_compose; [reflexivity|].
      intros row; reflexivity. }
    split; intros row; simpl; auto.
  - eexists; split; [rewrite Hs3, Hs2; exact Hs1|].
    split; intros row; reflexivity.
Qed.

(** An attempt writes the [progress] column only with its completing
    UPDATE. *)
Lemma scanWorker_progress (job : Job) (w w' : World) (r : result JobReturn) :
  scanWorker job env w = (r, w') ->
  exists f,
    scans w' = update_rows (scanId job) f (scans w) /\
    (forall row, id (f row) = id row) /\
    forall row,
      match r with
      | Ok _ => progress (f row) = 100%Z /\ status (f row) = complete
      | Throw _ => progress (f row) = progress row
      end.
Proof.
  unfold scanWorker, try_catchM; intros H.
  destruct (scanWorker_try job env w) as [[ret|e] w1] eqn:Ht;
    apply scanWorker_try_progress in Ht;
    destruct Ht as (f & Hs1 & Hid & Hf).
  - injection H as <- <-; exists f; auto.
  - unfold scanWorker_catch, bind in H.
    destruct (update_scans (scanId job) error (mark_failed (message e)) env w1)
      as [[[]|e2] w2] eqn:H2;
      apply update_scans_inv in H2;
      destruct H2 as (_ & [(? & _ & _ & Hs2)|(e' & He & _ & _ & Hs2)]);
      try discriminate; injection H as <- <-.
    + eexists; split.
      { rewrite Hs2, Hs1, update_rows_compose; [reflexivity|exact Hid]. }
      split; intros row; simpl; [apply Hid|apply Hf].
    + exists f; split; [congruence|auto].
Qed.

Lemma retry_progress (job : Job) (n : nat) :
  forall (made : nat) (w w' : World) (st : JobState),
  retry n made job env w = (st, w') ->
  exists f,
    scans w' = update_rows (scanId job) f (scans w) /\
    (forall row, id (f row) = id row) /\
    forall row,
      match st with
      | completed _ => progress (f row) = 100%Z /\ status (f row) = complete
      | failed _ => progress (f row) = progress row
      end.
Proof.
  induction n as [|n IH]; intros made w w' st H; simpl in H;
    destruct (scanWorker job env w) as [[ret|e] w1] eqn:Hw;
    apply scanWorker_progress in Hw; destruct Hw as (f & Hs & Hid & Hf);
    try (injection H as <- <-; exists f; auto).
  apply IH in H; destruct H as (g & Hs' & Hid' & Hg).
  exists (fun r => g (f r)); split.
  { rewrite Hs'; simpl scans; rewrite Hs.
    now apply update_rows_compose. }
  split; [intros row; now rewrite Hid', Hid|].
  intros row; specialize (Hg (f row)); specialize (Hf row).
  destruct st; [exact Hg|congruence].
Qed.

End ProgressColumn.

(** C9, as the code has it: within one attempt of the worker the progress
    reports are strictly increasing; they are a prefix of the milestones of
    the scan type, and all of them when the attempt succeeds: 10, 20, 40,
    60, 80, 100 for a comprehensive scan.  The [progress] column of the scan
    row is written by the completing UPDATE alone: an attempt that throws
    leaves it as it was and an attempt that returns sets it to 100; so a
    failed job leaves the column as it was, and a completed job leaves it at
    100 with status [complete]. *)
Theorem progress_within_an_attempt (job : Job) (env : Env) (w : World) :
  (exists delta,
     trace (snd (scanWorker job env w)) = trace w ++ delta /\
     increasing (progress_reports delta) = true /\
     (exists later,
        progress_reports delta ++ later = milestones (scanType job)) /\
     (forall ret,
        fst (scanWorker job env w) = Ok ret ->
        scanType job = "comprehensive"%string ->
        progress_reports delta = [10; 20; 40; 60; 80; 100]%Z)) /\
  (forall row0,
     find_scan (scanId job) (scans w) = Some row0 ->
     (exists row,
        find_scan (scanId job) (scans (snd (scanWorker job env w)))
          = Some row /\
        match fst (scanWorker job env w) with
        | Ok _ => progress row = 100%Z /\ status row = complete
        | Throw _ => progress row = progress row0
        end) /\
     (exists row,
        find_scan (scanId job) (scans (snd (processJob job env w)))
          = Some row /\
        match fst (processJob job env w) with
        | completed _ => progress row = 100%Z /\ status row = complete
        | failed _ => progress row = progress row0
        end)).
Proof.
  split.
  - destruct (scanWorker job env w) as [r w'] eqn:H; cbn [fst snd].
    apply scanWorker_inv in H.
    destruct H as (pre & rest & tl & f & Hscript & Hstep & _ & _ & Hcase).
    exists (pre ++ tl); split; [exact (Step_trace Hstep)|].
    assert (Htl : progress_reports tl = []).
    { destruct Hcase
        as [(_ & _ & -> & _)|(e & _ & _ & _ & [(-> & _)|(-> & _)])]; auto. }
    rewrite progress_reports_app, Htl, app_nil_r.
    split; [exact (attempt_prefix_increasing _ _ Hscript)|].
    split; [exists (progress_reports rest);
            exact (attempt_prefix_progress _ _ Hscript)|].
    intros ret Hret Hty.
    destruct Hcase as [(_ & -> & _)|(e & -> & _)]; [|discriminate].
    pose proof (attempt_prefix_progress _ _ Hscript) as Hp.
    simpl in Hp; rewrite app_nil_r, Hty in Hp; exact Hp.
  - intros row0 Hrow; split.
    + destruct (scanWorker job env w) as [r w'] eqn:H; cbn [fst snd].
      apply scanWorker_progress in H; destruct H as (f & Hs & Hid & Hf).
      exists (f row0).
      rewrite Hs, (find_scan_update_rows _ _ _ Hid), Hrow.
      split; [reflexivity|apply Hf].
    + destruct (processJob job env w) as [st w'] eqn:H; cbn [fst snd].
      apply retry_progress in H; destruct H as (f & Hs & Hid & Hf).
      exists (f row0).
      rewrite Hs, (find_scan_update_rows _ _ _ Hid), Hrow.
      split; [reflexivity|apply Hf].
Qed.

Lemma progress_within_an_attempt_witness :
  progress_reports (trace (snd (scanWorker comprehensive_job calm store0)))
  = [10; 20; 40; 60; 80; 100]%Z /\
  exists row,
    find_scan "scan-1" (scans (snd (processJob ftp_job calm store0)))
      = Some row /\
    progress row = 0%Z.
Proof.
  split.
  - destruct (progress_within_an_attempt comprehensive_job calm store0)
      as [(delta & Htrace & _ & _ & Hall) _].
    rewrite Htrace, progress_reports_app.
    rewrite (Hall (MkJobReturn true 5)); reflexivity.
  - destruct (progress_within_an_attempt ftp_job calm store0) as [_ Hcolumn].
    destruct (Hcolumn (MkScanRow "scan-1" pending 0 None None None) eq_refl)
      as [_ (row & Hrow & Hp)].
    exists row; split; [exact Hrow|].
    assert (Hfailed : fst (processJob ftp_job calm store0)
                      = failed "Unsupported scan type: ftp")
      by (vm_compute; reflexivity).
    rewrite Hfailed in Hp; exact Hp.
Defined.

(** C9 fails as stated: the store rejects the first INSERT of an nmap scan
    and then the UPDATE that would record the error, so the scan stays
    [running]; the retry reports progress 10 after the 80 of the first
    attempt, and no terminal status was written in between. *)
Lemma progress_restarts_on_retry :
  let tr := trace (snd (processJob nmap_job (outage [3%nat; 4%nat]) store0)) in
  status_writes (firstn 7 tr) = [running; running] /\
  progress_reports (firstn 7 tr) = [10; 80; 10]%Z /\
  progress_never_decreases pending 0 tr = false.
Proof. vm_compute; auto. Qed.

(** * Further properties *)

(** ** The analyzer *)

Lemma identify_with_cve (f : RawFinding) (cve : jsval) :
  identifyVulnerabilityPattern (with_cve f cve)
  = identifyVulnerabilityPattern f.
Proof. reflexivity. Qed.

Lemma generateDescription_with_cve (f : RawFinding) (b : Profile.t)
    (cve : string) (d : text) :
  generateDescription f b = Ok d ->
  exists d', generateDescription (with_cve f (JStr cve)) b = Ok d'.
Proof.
  unfold generateDescription; cbn [with_cve service port cve_id].
  match goal with
  | |- rbind ?x _ = _ -> _ => destruct x as [d1|e]
  end; cbn [rbind]; [|discriminate].
  intros _; destruct (truthy (JStr cve)); cbn [rbind ToString]; eauto.
Qed.

(** An analysis that succeeds still succeeds when the CVE id is replaced by
    a string. *)
Lemma performAnalysis_with_cve (f : RawFinding) (cve : string)
    (a : Analysis.t) :
  performAnalysis f = Ok a ->
  exists a', performAnalysis (with_cve f (JStr cve)) = Ok a'.
Proof.
  unfold performAnalysis; rewrite identify_with_cve.
  destruct (identifyVulnerabilityPattern f) as [p|e]; [|discriminate].
  cbn [rbind].
  change (generateTitle (with_cve f (JStr cve)) p) with (generateTitle f p).
  destruct (generateTitle f p) as [t|e]; [|discriminate].
  cbn [rbind].
  destruct (generateDescription f (vulnerabilityDatabase p)) as [d|e] eqn:Hd;
    [|discriminate].
  destruct (@generateDescription_with_cve f _ cve d Hd) as [d' ->].
  cbn [rbind].
  change (generateFixSuggestion (with_cve f (JStr cve))
                                (vulnerabilityDatabase p))
    with (generateFixSuggestion f (vulnerabilityDatabase p)).
  destruct (generateFixSuggestion f (vulnerabilityDatabase p)) as [x|e];
    [|discriminate].
  cbn [rbind]; eauto.
Qed.

(** X1: every analysis, the fallback included, has a score within [0, 10]
    (the CHECK constraint of [scan_results.cvss_score]) and a confidence
    within [0.3, 1.0]. *)
Theorem analysis_within_ranges (scanResult : RawFinding) :
  exists analysis,
    analyzeVulnerability scanResult = Ok analysis /\
    (0 <=? Analysis.cvss_score analysis)%float = true /\
    (Analysis.cvss_score analysis <=? 10)%float = true /\
    (0.3 <=? Analysis.confidence_score analysis)%float = true /\
    (Analysis.confidence_score analysis <=? 1)%float = true.
Proof.
  exists (classify scanResult); split; [apply analyzeVulnerability_classify|].
  destruct (performAnalysis scanResult) as [analysis|e] eqn:Ha.
  - rewrite (classify_Ok _ Ha).
    destruct (performAnalysis_Ok _ Ha) as (pattern & _ & _ & -> & ->).
    unfold calculateContextualRisk, cappedScore, riskMultiplier,
      calculateConfidenceScore; cbn [ContextualRisk.cvss_score].
    destruct (truthy (port scanResult)),
      (array_includes_num [22; 23; 3389]%float (port scanResult)),
      (truthy (service scanResult)),
      (array_includes_str ["mysql"; "postgresql"; "mssql"]
                          (service scanResult)),
      (truthy (cve_id scanResult)), (truthy (version scanResult)), pattern;
      vm_compute; auto.
  - rewrite (classify_fallback _ Ha); vm_compute; auto.
Qed.

(** X2: when the analysis of a finding succeeds (it does not fall back), the
    returned risk level is never below the risk level stored in the matched
    profile; with no remote-access port, no database service and no CVE id,
    the finding gets exactly the profile's level and base score. *)
Theorem risk_level_at_least_stored
    (scanResult : RawFinding) (pattern : Pattern) (analysis : Analysis.t) :
  identifyVulnerabilityPattern scanResult = Ok pattern ->
  performAnalysis scanResult = Ok analysis ->
  analyzeVulnerability scanResult = Ok analysis /\
  (level_rank (Profile.risk_level (vulnerabilityDatabase pattern))
   <= level_rank (Analysis.risk_level analysis))%nat /\
  (array_includes_num [22; 23; 3389]%float (port scanResult) = false ->
   array_includes_str ["mysql"; "postgresql"; "mssql"] (service scanResult)
     = false ->
   truthy (cve_id scanResult) = false ->
   Analysis.risk_level analysis
     = Profile.risk_level (vulnerabilityDatabase pattern) /\
   Analysis.cvss_score analysis
     = Profile.base_cvss (vulnerabilityDatabase pattern)).
Proof.
  intros Hp Ha; split.
  { now rewrite analyzeVulnerability_classify, (classify_Ok _ Ha). }
  destruct (performAnalysis_Ok _ Ha) as (pattern' & Hp' & -> & -> & _).
  assert (pattern' = pattern) by congruence; subst pattern'.
  unfold calculateContextualRisk, cappedScore, riskMultiplier;
    cbn [ContextualRisk.risk_level ContextualRisk.cvss_score].
  split.
  - destruct (truthy (port scanResult) && _),
      (truthy (service scanResult) && _), (truthy (cve_id scanResult)),
      pattern; vm_compute; lia.
  - intros -> -> ->; rewrite !andb_false_r.
    destruct pattern; vm_compute; auto.
Qed.

Lemma risk_level_at_least_stored_witness :
  analyzeVulnerability ssh_cve_finding = Ok (classify ssh_cve_finding) /\
  (level_rank medium
   <= level_rank (Analysis.risk_level (classify ssh_cve_finding)))%nat.
Proof.
  destruct (@risk_level_at_least_stored ssh_cve_finding ssh_open
              (classify ssh_cve_finding))
    as (Hok & Hle & _); [vm_compute; reflexivity..|].
  split; [exact Hok|exact Hle].
Defined.

(** X3: attaching a CVE id to a finding never changes the pattern it
    matches and never lowers its risk level, its score or its confidence. *)
Theorem cve_never_lowers_the_risk (scanResult : RawFinding) (cve : string) :
  cve <> ""%string ->
  let before := classify scanResult in
  let after := classify (with_cve scanResult (JStr cve)) in
  identifyVulnerabilityPattern (with_cve scanResult (JStr cve))
  = identifyVulnerabilityPattern scanResult /\
  (level_rank (Analysis.risk_level before)
   <= level_rank (Analysis.risk_level after))%nat /\
  (Analysis.cvss_score before <=? Analysis.cvss_score after)%float = true /\
  (Analysis.confidence_score before
   <=? Analysis.confidence_score after)%float = true.
Proof.
  intros Hne before after; subst before after.
  split; [apply identify_with_cve|].
  destruct (performAnalysis scanResult) as [a|e] eqn:Hb.
  - destruct (@performAnalysis_with_cve scanResult cve a Hb) as [a' Ha].
    rewrite (classify_Ok _ Hb), (classify_Ok _ Ha).
    destruct (performAnalysis_Ok _ Hb) as (pattern & Hp & -> & -> & ->).
    destruct (performAnalysis_Ok _ Ha) as (pattern' & Hp' & -> & -> & ->).
    rewrite identify_with_cve in Hp'.
    assert (pattern' = pattern) by congruence; subst pattern'.
    unfold calculateContextualRisk, cappedScore, riskMultiplier,
      calculateConfidenceScore;
      cbn [ContextualRisk.risk_level ContextualRisk.cvss_score
           with_cve port service cve_id version].
    rewrite (truthy_nonempty Hne).
    destruct (truthy (port scanResult)),
      (array_includes_num [22; 23; 3389]%float (port scanResult)),
      (truthy (service scanResult)),
      (array_includes_str ["mysql"; "postgresql"; "mssql"]
                          (service scanResult)),
      (truthy (cve_id scanResult)), (truthy (version scanResult)), pattern;
      vm_compute; repeat split; lia.
  - rewrite (classify_fallback _ Hb).
    cbn [getFallbackAnalysis Analysis.risk_level Analysis.cvss_score
         Analysis.confidence_score].
    destruct (performAnalysis (with_cve scanResult (JStr cve)))
      as [a'|e'] eqn:Ha.
    + rewrite (classify_Ok _ Ha).
      destruct (performAnalysis_Ok _ Ha) as (pattern & _ & -> & -> & ->).
      unfold calculateContextualRisk, cappedScore, riskMultiplier,
        calculateConfidenceScore;
        cbn [ContextualRisk.risk_level ContextualRisk.cvss_score
             with_cve port service cve_id version].
      rewrite (truthy_nonempty Hne).
      destruct (truthy (port scanResult)),
        (array_includes_num [22; 23; 3389]%float (port scanResult)),
        (truthy (service scanResult)),
        (array_includes_str ["mysql"; "postgresql"; "mssql"]
                            (service scanResult)),
        (truthy (version scanResult)), pattern;
        vm_compute; repeat split; lia.
    + rewrite (classify_fallback _ Ha); vm_compute; repeat split; lia.
Qed.

Lemma cve_never_lowers_the_risk_witness :
  Analysis.risk_level (classify ssh_finding) = medium /\
  Analysis.risk_level (classify (with_cve ssh_finding (JStr "CVE-2024-1")))
    = high /\
  (level_rank (Analysis.risk_level (classify ssh_finding))
   <= level_rank (Analysis.risk_level
                    (classify (with_cve ssh_finding (JStr "CVE-2024-1"))))
  )%nat.
Proof.
  split; [vm_compute; reflexivity|]. split; [vm_compute; reflexivity|].
  apply (@cve_never_lowers_the_risk ssh_finding "CVE-2024-1").
  discriminate.
Defined.

(** X4: a finding that matches the database profile through its service
    name (mysql, postgresql or mssql) and whose analysis succeeds is
    returned critical with score 10.0, although the profile stores high and
    8.1. *)
Theorem exposed_database_service_is_critical
    (scanResult : RawFinding) (analysis : Analysis.t) :
  identifyVulnerabilityPattern scanResult = Ok database_exposed ->
  array_includes_str ["mysql"; "postgresql"; "mssql"] (service scanResult)
    = true ->
  performAnalysis scanResult = Ok analysis ->
  analyzeVulnerability scanResult = Ok analysis /\
  Analysis.risk_level analysis = critical /\
  Analysis.cvss_score analysis = 10.0%float.
Proof.
  intros Hp Hs Ha; split.
  { now rewrite analyzeVulnerability_classify, (classify_Ok _ Ha). }
  destruct (performAnalysis_Ok _ Ha) as (pattern' & Hp' & -> & -> & _).
  assert (pattern' = database_exposed) by congruence; subst pattern'.
  unfold calculateContextualRisk, cappedScore, riskMultiplier;
    cbn [ContextualRisk.risk_level ContextualRisk.cvss_score].
  rewrite Hs, (listed_service_is_truthy _ Hs).
  destruct (truthy (port scanResult) && _), (truthy (cve_id scanResult));
    vm_compute; auto.
Qed.

Lemma exposed_database_service_is_critical_witness :
  analyzeVulnerability mysql_finding = Ok (classify mysql_finding) /\
  Analysis.risk_level (classify mysql_finding) = critical /\
  Analysis.cvss_score (classify mysql_finding) = 10.0%float.
Proof.
  apply exposed_database_service_is_critical; vm_compute; reflexivity.
Defined.

(** ** The report service *)

Lemma summary_fold (level : RiskLevel) (rows : list Report.row) :
  forall acc,
  count_of level
    (fold_left (fun acc result => Report.bump (Report.level_or_info result) acc)
               rows acc)
  = (count_of level acc
     + length (filter (fun r => level_eqb (Report.level_or_info r) level)
                      rows))%nat.
Proof.
  induction rows as [|r rows IH]; intros acc; simpl; [lia|].
  rewrite IH.
  destruct (Report.level_or_info r), level; simpl; lia.
Qed.

Lemma summary_counts (level : RiskLevel) (rows : list Report.row) :
  count_of level (Report.generateVulnerabilitySummary rows)
  = length (filter (fun r => level_eqb (Report.level_or_info r) level) rows).
Proof.
  unfold Report.generateVulnerabilitySummary; rewrite summary_fold.
  now destruct level.
Qed.

(** X5: [generateVulnerabilitySummary] counts every row once: the count of a
    level is the number of rows of that level, a row without a level being
    counted as info, and the five counts add up to the number of rows. *)
Theorem summary_counts_every_row (scanResults : list Report.row) :
  let s := Report.generateVulnerabilitySummary scanResults in
  (forall level,
     count_of level s
     = length (filter (fun r => level_eqb (Report.level_or_info r) level)
                      scanResults)) /\
  (Report.critical_count s + Report.high_count s + Report.medium_count s
   + Report.low_count s + Report.info_count s = length scanResults)%nat.
Proof.
  cbv zeta; split; [intros level; apply summary_counts|].
  pose proof (summary_counts critical scanResults) as Hc.
  pose proof (summary_counts high scanResults) as Hh.
  pose proof (summary_counts medium scanResults) as Hm.
  pose proof (summary_counts low scanResults) as Hl.
  pose proof (summary_counts info scanResults) as Hi.
  simpl in Hc, Hh, Hm, Hl, Hi; rewrite Hc, Hh, Hm, Hl, Hi.
  clear; induction scanResults as [|r rows IH]; simpl; [reflexivity|].
  destruct (Report.level_or_info r); simpl; lia.
Qed.

Lemma critical_or_high_count (rows : list Report.row) :
  length (filter Report.critical_or_high rows)
  = (Report.high_count (Report.generateVulnerabilitySummary rows)
     + Report.critical_count (Report.generateVulnerabilitySummary rows))%nat.
Proof.
  pose proof (summary_counts critical rows) as Hc.
  pose proof (summary_counts high rows) as Hh.
  simpl in Hc, Hh; rewrite Hc, Hh.
  clear; induction rows as [|r rows IH]; simpl; [reflexivity|].
  unfold Report.critical_or_high, Report.level_or_info in *.
  destruct (Report.risk_level r) as [[| | | |]|]; simpl; lia.
Qed.

(** X6: in the executive summary the key findings are the titles of the
    first critical or high rows, at most five of them: their number is the
    smaller of 5 and [high_priority_issues]; immediate actions are required
    exactly when there is a key finding, and exactly when the overall risk
    level is Critical or High; a scan without findings is rated Low. *)
Theorem executive_summary_is_consistent (scanResults : list Report.row) :
  let e := Report.generateExecutiveSummary scanResults in
  Report.total_vulnerabilities e = length scanResults /\
  length (Report.key_findings e)
    = Nat.min 5 (Report.high_priority_issues e) /\
  (Report.immediate_actions_required e = true
   <-> Report.key_findings e <> []) /\
  (Report.immediate_actions_required e = true
   <-> Report.overall_risk_level e = "Critical"%string
       \/ Report.overall_risk_level e = "High"%string) /\
  (scanResults = [] -> Report.overall_risk_level e = "Low"%string).
Proof.
  intros e; subst e; unfold Report.generateExecutiveSummary;
    cbn [Report.total_vulnerabilities Report.key_findings
         Report.high_priority_issues Report.immediate_actions_required
         Report.overall_risk_level].
  pose proof (critical_or_high_count scanResults) as Hk.
  set (s := Report.generateVulnerabilitySummary scanResults) in *.
  split; [reflexivity|].
  split; [now rewrite length_map, length_firstn, Hk|].
  split; [|split].
  - assert (Hlen : length (map Report.title
                             (firstn 5 (filter Report.critical_or_high
                                               scanResults)))
                   = Nat.min 5 (Report.high_count s + Report.critical_count s))
      by (now rewrite length_map, length_firstn, Hk).
    destruct (map Report.title _) as [|t l]; simpl in Hlen.
    + split; [|congruence]; intros H.
      destruct (Report.critical_count s), (Report.high_count s);
        simpl in *; try discriminate; lia.
    + split; [discriminate|]; intros _.
      destruct (Report.critical_count s), (Report.high_count s);
        simpl in *; try reflexivity; lia.
  - destruct (0 <? Report.critical_count s)%nat,
      (0 <? Report.high_count s)%nat, (0 <? Report.medium_count s)%nat;
      simpl; split; intros H; auto; try discriminate;
      destruct H; discriminate.
  - intros ->; reflexivity.
Qed.

Lemma distinct_NoDup (l : list string) : distinct l = true -> NoDup l.
Proof.
  induction l as [|x l IH]; simpl; intros H; constructor;
    apply andb_true_iff in H; destruct H as [Hx Hl]; [|now apply IH].
  intros Hin; apply negb_true_iff in Hx.
  assert (Ht : existsb (String.eqb x) l = true)
    by (apply existsb_exists; exists x; split; [exact Hin|apply String.eqb_refl]).
  congruence.
Qed.

(** X7: [generateRecommendations] never repeats a recommendation, returns
    between five and ten of them, and always ends with the five general
    ones; for a scan without findings it returns exactly those five. *)
Theorem recommendations_end_with_the_general_ones
    (scanResults : list Report.row) :
  let recs := Report.generateRecommendations scanResults in
  NoDup recs /\
  (5 <= length recs <= 10)%nat /\
  skipn (length recs - 5) recs = Report.general_recommendations /\
  (scanResults = [] -> recs = Report.general_recommendations).
Proof.
  intros recs; subst recs; unfold Report.generateRecommendations.
  split; [|split; [|split]].
  - apply distinct_NoDup.
    destruct (existsb Report.is_critical scanResults),
      (existsb (Report.type_mentions "sql") scanResults),
      (existsb Report.is_ssh scanResults),
      (existsb (Report.type_mentions "ssl") scanResults),
      (existsb Report.is_web_port scanResults); vm_compute; reflexivity.
  - destruct (existsb Report.is_critical scanResults),
      (existsb (Report.type_mentions "sql") scanResults),
      (existsb Report.is_ssh scanResults),
      (existsb (Report.type_mentions "ssl") scanResults),
      (existsb Report.is_web_port scanResults); vm_compute; lia.
  - destruct (existsb Report.is_critical scanResults),
      (existsb (Report.type_mentions "sql") scanResults),
      (existsb Report.is_ssh scanResults),
      (existsb (Report.type_mentions "ssl") scanResults),
      (existsb Report.is_web_port scanResults); vm_compute; reflexivity.
  - intros ->; vm_compute; reflexivity.
Qed.

(** *** [escapeCsvField] *)

Lemma length_append (a b : string) :
  String.length (a ++ b)%string = (String.length a + String.length b)%nat.
Proof. induction a as [|c a IH]; simpl; [reflexivity|now rewrite IH]. Qed.

Lemma append_cancel_r (a b t : string) :
  (a ++ t)%string = (b ++ t)%string -> a = b.
Proof.
  revert b; induction a as [|c a IH]; intros [|d b] H; simpl in H.
  - reflexivity.
  - apply (f_equal String.length) in H; simpl in H.
    rewrite length_append in H; lia.
  - apply (f_equal String.length) in H; simpl in H.
    rewrite length_append in H; lia.
  - injection H as -> H; f_equal; now apply IH.
Qed.

Lemma double_quotes_injective (a : string) :
  forall b, Report.double_quotes a = Report.double_quotes b -> a = b.
Proof.
  induction a as [|c a IH]; intros [|d b] H; simpl in H.
  - reflexivity.
  - destruct (Ascii.eqb d Report.dquote); discriminate.
  - destruct (Ascii.eqb c Report.dquote); discriminate.
  - destruct (Ascii.eqb c Report.dquote) eqn:Hc,
      (Ascii.eqb d Report.dquote) eqn:Hd.
    + apply Ascii.eqb_eq in Hc, Hd; subst c d.
      injection H as H; f_equal; now apply IH.
    + injection H as Hq H; subst d; now rewrite Ascii.eqb_refl in Hd.
    + injection H as Hq H; subst c; now rewrite Ascii.eqb_refl in Hc.
    + injection H as -> H; f_equal; now apply IH.
Qed.

Lemma includes_cons (c : ascii) (s needle : string) :
  includes (String c s) needle
  = (String.prefix needle (String c s) || includes s needle).
Proof. simpl; now destruct (String.prefix needle (String c s)). Qed.

Lemma leading_quote_needs_quoting (s : string) :
  Report.needs_quoting (String Report.dquote s) = true.
Proof.
  unfold Report.needs_quoting.
  rewrite (includes_cons Report.dquote s (String Report.dquote EmptyString)).
  replace (String.prefix (String Report.dquote EmptyString)
                         (String Report.dquote s)) with true.
  - now rewrite orb_true_r.
  - simpl; destruct (ascii_dec Report.dquote Report.dquote) as [_|H];
      [now destruct s|now elim H].
Qed.

(** X8: [escapeCsvField] loses nothing: two fields with the same escaped
    form are the same field. *)
Theorem escapeCsvField_injective (a b : jsval) :
  Report.escapeCsvField a = Report.escapeCsvField b -> a = b.
Proof.
  assert (Hstr : forall s v,
    Report.escapeCsvField v = Report.escapeCsvField (JStr s) ->
    exists t, v = JStr t).
  { intros s v H; destruct v as [| |x|x|t|l]; simpl in H;
      try (destruct (Report.needs_quoting s); discriminate).
    eauto. }
  destruct a as [| |x|x|s|l], b as [| |y|y|t|m]; intros H;
    try exact H;
    try (destruct (Hstr _ _ H) as [u Hu]; discriminate);
    try (symmetry in H; destruct (Hstr _ _ H) as [u Hu]; discriminate).
  simpl in H.
  destruct (Report.needs_quoting s) eqn:Hs, (Report.needs_quoting t) eqn:Ht;
    injection H as H.
  - apply append_cancel_r in H; f_equal; now apply double_quotes_injective.
  - subst t; now rewrite leading_quote_needs_quoting in Ht.
  - subst s; now rewrite leading_quote_needs_quoting in Hs.
  - now subst.
Qed.

Lemma escapeCsvField_injective_witness :
  JStr "a,b" = JStr "a,b".
Proof.
  apply escapeCsvField_injective; reflexivity.
Defined.

Lemma count_quotes_append (a b : string) :
  count_quotes (a ++ b)%string = (count_quotes a + count_quotes b)%nat.
Proof.
  induction a as [|c a IH]; simpl; [reflexivity|].
  destruct (Ascii.eqb c Report.dquote); simpl; now rewrite IH.
Qed.

Lemma count_quotes_doubled (s : string) :
  count_quotes (Report.double_quotes s) = (2 * count_quotes s)%nat.
Proof.
  induction s as [|c s IH]; simpl; [reflexivity|].
  destruct (Ascii.eqb c Report.dquote) eqn:Hc; simpl.
  - change (Ascii.eqb Report.dquote Report.dquote) with true; simpl.
    rewrite IH; lia.
  - now rewrite Hc.
Qed.

Lemma no_quote_when_plain (s : string) :
  includes s (String Report.dquote EmptyString) = false -> count_quotes s = 0%nat.
Proof.
  induction s as [|c s IH]; [reflexivity|].
  rewrite includes_cons; intros H; apply orb_false_iff in H.
  destruct H as [Hp Hi]; simpl.
  destruct (Ascii.eqb c Report.dquote) eqn:Hc; [|now apply IH].
  apply Ascii.eqb_eq in Hc; subst c.
  simpl in Hp; destruct (ascii_dec Report.dquote Report.dquote) as [_|H];
    [now destruct s|now elim H].
Qed.

(** X9: a field without comma, double quote or line feed is returned as it
    is; any other field comes back between two double quotes with its own
    double quotes doubled; in both cases the escaped field holds an even
    number of double quotes. *)
Theorem escapeCsvField_balances_quotes (s : string) :
  exists out,
    Report.escapeCsvField (JStr s) = JStr out /\
    Nat.even (count_quotes out) = true /\
    (Report.needs_quoting s = false -> out = s) /\
    (Report.needs_quoting s = true ->
     out = String Report.dquote
             (Report.double_quotes s ++ String Report.dquote EmptyString)
     /\ count_quotes out = (2 + 2 * count_quotes s)%nat).
Proof.
  unfold Report.escapeCsvField.
  destruct (Report.needs_quoting s) eqn:Hq; eexists; split; try reflexivity.
  - assert (Hc : count_quotes
                   (String Report.dquote
                      (Report.double_quotes s
                       ++ String Report.dquote EmptyString))
                 = (2 + 2 * count_quotes s)%nat).
    { simpl; change (Ascii.eqb Report.dquote Report.dquote) with true.
      rewrite count_quotes_append, count_quotes_doubled; simpl.
      change (Ascii.eqb Report.dquote Report.dquote) with true; lia. }
    split; [|split; [discriminate|auto]].
    rewrite Hc.
    replace (2 + 2 * count_quotes s)%nat with (2 * (1 + count_quotes s))%nat
      by lia.
    apply Nat.even_even.
  - unfold Report.needs_quoting in Hq.
    apply orb_false_iff in Hq; destruct Hq as [Hq _].
    apply orb_false_iff in Hq; destruct Hq as [_ Hq].
    rewrite (no_quote_when_plain _ Hq).
    split; [reflexivity|split; [auto|discriminate]].
Qed.

(** *** [parseNiktoOutput] and [runSqlmapScan] *)

Lemma includes_here (needle s : string) :
  String.prefix needle s = true -> includes s needle = true.
Proof. destruct s; simpl; intros ->; reflexivity. Qed.

Lemma includes_later (c : ascii) (s needle : string) :
  includes s needle = true -> includes (String c s) needle = true.
Proof. intros H; rewrite includes_cons, H; apply orb_true_r. Qed.

Lemma match_plus_marker (line : string) :
  forall captured, match_plus line = Some captured -> includes line "+ " = true.
Proof.
  induction line as [|c rest IH]; intros captured H; [discriminate|].
  simpl in H.
  destruct (Ascii.eqb c "+") eqn:Hc.
  - apply Ascii.eqb_eq in Hc; subst c.
    destruct rest as [|b rest']; [discriminate|].
    destruct (ascii_dec b " ") as [->|Hb].
    + apply includes_here; simpl; now destruct rest'.
    + apply includes_later, (IH captured).
      destruct b as [[] [] [] [] [] [] [] []]; try exact H; now elim Hb.
  - apply includes_later, (IH captured), H.
Qed.

Lemma dot_run_no_terminator (s : string) :
  forall c, includes (dot_run s) (String c EmptyString) = true ->
            line_terminator c = false.
Proof.
  induction s as [|d s IH]; intros c H; [discriminate|].
  simpl in H.
  destruct (line_terminator d) eqn:Hd; [discriminate|].
  rewrite includes_cons in H; apply orb_true_iff in H; destruct H as [H|H].
  - simpl in H; destruct (ascii_dec c d) as [->|]; [exact Hd|discriminate].
  - now apply IH.
Qed.

Lemma dot_run_split (s : string) :
  exists post, s = (dot_run s ++ post)%string.
Proof.
  induction s as [|d s [post IH]]; [now exists EmptyString|].
  simpl; destruct (line_terminator d).
  - now exists (String d s).
  - exists post; simpl; now rewrite <- IH.
Qed.

Lemma match_plus_capture (line : string) :
  forall captured, match_plus line = Some captured ->
    captured <> EmptyString /\
    exists pre post, line = (pre ++ "+ " ++ captured ++ post)%string.
Proof.
  assert (Hlater : forall c rest captured,
    (captured <> EmptyString /\
     exists pre post, rest = (pre ++ "+ " ++ captured ++ post)%string) ->
    captured <> EmptyString /\
    exists pre post, String c rest = (pre ++ "+ " ++ captured ++ post)%string).
  { intros c rest captured [Hne (pre & post & ->)]; split; [exact Hne|].
    now exists (String c pre), post. }
  induction line as [|c rest IH]; intros captured H; [discriminate|].
  simpl in H.
  destruct (Ascii.eqb c "+") eqn:Hc; [|now apply Hlater, IH].
  apply Ascii.eqb_eq in Hc; subst c.
  destruct rest as [|b rest']; [discriminate|].
  destruct (ascii_dec b " ") as [->|Hb].
  - destruct rest' as [|d rest'']; [now apply Hlater, IH|].
    destruct (line_terminator d) eqn:Hd; [now apply Hlater, IH|].
    injection H as <-; split.
    + discriminate.
    + destruct (dot_run_split rest'') as [post Hpost].
      exists EmptyString, post.
      change (String "+" (String " " (String d rest''))
              = String "+" (String " " (String d (dot_run rest'' ++ post))))%string.
      now rewrite <- Hpost.
  - apply Hlater, IH.
    destruct b as [[] [] [] [] [] [] [] []]; try exact H; now elim Hb.
Qed.

Lemma match_plus_no_terminator (line : string) :
  forall captured c, match_plus line = Some captured ->
    includes captured (String c EmptyString) = true ->
    line_terminator c = false.
Proof.
  induction line as [|a rest IH]; intros captured c H; [discriminate|].
  simpl in H.
  destruct (Ascii.eqb a "+") eqn:Ha; [|now apply IH].
  destruct rest as [|b rest']; [discriminate|].
  destruct (ascii_dec b " ") as [->|Hb].
  - destruct rest' as [|d rest'']; [now apply IH|].
    destruct (line_terminator d) eqn:Hd; [now apply IH|].
    injection H as <-; intros Hin.
    apply (dot_run_no_terminator (String d rest'')).
    cbn [dot_run]; rewrite Hd; exact Hin.
  - apply IH.
    destruct b as [[] [] [] [] [] [] [] []]; try exact H; now elim Hb.
Qed.

Lemma substring_prefix (n : nat) (s : string) :
  String.prefix (substring 0 n s) s = true /\
  String.length (substring 0 n s) <= n.
Proof.
  revert s; induction n as [|n IH]; intros [|c s]; simpl;
    try (split; [reflexivity|lia]).
  destruct (IH s) as [Hp Hl].
  destruct (ascii_dec c c) as [_|H]; [|now elim H].
  split; [exact Hp|lia].
Qed.

(** X10: in [parseNiktoOutput] the test for OSVDB, CVE or the plus marker
    decides nothing: a line of the report yields a finding exactly when the
    pattern of the plus marker matches it, and then exactly one. *)
Theorem nikto_marker_test_is_redundant (line : string) :
  niktoLine line = match match_plus line with
                   | Some captured => [niktoFinding line captured]
                   | None => []
                   end.
Proof.
  unfold niktoLine.
  destruct (match_plus line) as [captured|] eqn:H.
  - rewrite (match_plus_marker _ H), orb_true_r; reflexivity.
  - now destruct (_ || _ || _).
Qed.

(** X11: every finding parsed from a Nikto report comes from one line of the
    report: its description is a non-empty piece of that line which follows a
    plus sign and a space and holds no line terminator, its title is the
    description cut at 100 characters, it is a web vulnerability on port 80
    of service http, and there are no more findings than lines; an
    unreadable report gives no finding. *)
Theorem nikto_findings_come_from_lines (read : result string) :
  (forall e, read = Throw e -> parseNiktoOutput read = []) /\
  forall content, read = Ok content ->
    length (parseNiktoOutput read) <= length (split_lines content) /\
    forall f, In f (parseNiktoOutput read) ->
      exists line captured pre post title,
        In line (split_lines content) /\
        line = (pre ++ "+ " ++ captured ++ post)%string /\
        captured <> EmptyString /\
        (forall c, includes captured (String c EmptyString) = true ->
                   c <> LF /\ c <> CR) /\
        String.prefix title captured = true /\
        String.length title <= 100 /\
        f = MkRawFinding (JStr "Web Vulnerability") (JStr title)
              (JStr captured) (JNum 80) (JStr "http")
              JUndefined JUndefined JUndefined JUndefined
              (JObj [ ("nikto_line", JStr line) ]).
Proof.
  split; [intros e ->; reflexivity|].
  intros content ->; simpl; split.
  - induction (split_lines content) as [|line lines IH]; simpl; [lia|].
    rewrite length_app.
    assert (length (niktoLine line) <= 1); [|lia].
    unfold niktoLine; destruct (_ || _ || _); [|simpl; lia].
    destruct (match_plus line); simpl; lia.
  - intros f Hf; apply in_flat_map in Hf; destruct Hf as (line & Hline & Hf).
    unfold niktoLine in Hf.
    destruct (_ || _ || _); [|destruct Hf].
    destruct (match_plus line) as [captured|] eqn:Hm; [|destruct Hf].
    destruct Hf as [<-|[]].
    destruct (match_plus_capture _ Hm) as [Hne (pre & post & Hsplit)].
    destruct (substring_prefix 100 captured) as [Hp Hl].
    exists line, captured, pre, post, (substring 0 100 captured).
    repeat split; try assumption.
    + intros ->; now generalize (match_plus_no_terminator _ _ Hm H).
    + intros ->; now generalize (match_plus_no_terminator _ _ Hm H).
Qed.

(** X12: a finding parsed from a Nikto line is classified by the words of
    the captured text alone: critical 9.8 when its first 100 characters
    mention sql injection, else medium 6.1 when they mention cross-site
    scripting, else high 7.5 when the text mentions outdated or vulnerable
    version, else info 0 (in any letter case); the fallback analysis is
    never used. *)
Theorem nikto_finding_classification (line captured : string) :
  let title := toLowerCase (substring 0 100 captured) in
  let text := toLowerCase captured in
  exists a,
    performAnalysis (niktoFinding line captured) = Ok a /\
    analyzeVulnerability (niktoFinding line captured) = Ok a /\
    (Analysis.risk_level a, Analysis.cvss_score a) =
      (if includes title "sql injection" then (critical, 9.8%float)
       else if includes title "cross-site scripting" then (medium, 6.1%float)
       else if includes text "outdated" || includes text "vulnerable version"
            then (high, 7.5%float)
       else (info, 0%float)).
Proof.
  cbv zeta.
  unfold analyzeVulnerability, performAnalysis, identifyVulnerabilityPattern.
  unfold niktoFinding; cbn [vulnerability_type title description port service].
  change (lowerIncludes (JStr "Web Vulnerability") "sql") with (Ok false).
  change (lowerIncludes (JStr "Web Vulnerability") "xss") with (Ok false).
  change (lowerIncludes (JStr "Web Vulnerability") "ssl") with (Ok false).
  change (lowerIncludes (JStr "Web Vulnerability") "tls") with (Ok false).
  unfold orElse, lowerIncludes, rbind; cbn [strict_eq_str strict_eq_num].
  change (strict_eq_str (JStr "http") "ssh") with false.
  change (strict_eq_str (JStr "http") "http") with true.
  cbn [orb].
  destruct (includes (toLowerCase (substring 0 100 captured)) "sql injection");
    [eexists; split; [reflexivity|split; [reflexivity|vm_compute; reflexivity]]|].
  destruct (includes (toLowerCase (substring 0 100 captured))
                     "cross-site scripting");
    [eexists; split; [reflexivity|split; [reflexivity|vm_compute; reflexivity]]|].
  change (strict_eq_num (JNum 80) 22) with false; cbn [orb].
  destruct (includes (toLowerCase captured) "outdated"); cbn [orb].
  { eexists; split; [reflexivity|split; [reflexivity|vm_compute; reflexivity]]. }
  destruct (includes (toLowerCase captured) "vulnerable version").
  { eexists; split; [reflexivity|split; [reflexivity|vm_compute; reflexivity]]. }
  eexists; split; [reflexivity|split; [reflexivity|vm_compute; reflexivity]].
Qed.

(** X13: whatever the sqlmap process does, [runSqlmapScan] returns at most
    one finding; it returns none exactly when the process exits with code 0
    and its output lacks the sentence on identified injection points; and
    the finding it returns is classified critical, with score 9.8 when it
    was parsed from the output and 10 when it is the simulated one. *)
Theorem sqlmap_reports_at_most_one_critical_finding
    (target : string) (run : ToolRun) :
  exists findings,
    runSqlmapScan target run = Ok findings /\
    length findings <= 1 /\
    (findings = [] <->
     exists stdout stderr,
       process run = Exited 0 stdout stderr /\
       includes stdout "sqlmap identified the following injection point"
       = false) /\
    forall f, In f findings ->
      exists a, analyzeVulnerability f = Ok a /\
                Analysis.risk_level a = critical /\
                Analysis.cvss_score a
                = (if truthy (cve_id f) then 10 else 9.8)%float.
Proof.
  unfold runSqlmapScan.
  destruct (process run) as [code stdout stderr| |e] eqn:Hp; simpl.
  - destruct (code =? 0)%Z eqn:Hc; simpl.
    + apply Z.eqb_eq in Hc; subst code.
      unfold parseSqlmapOutput.
      destruct (includes stdout _) eqn:Hi; eexists; split; try reflexivity;
        split; simpl; try lia; split.
      * split; [discriminate|].
        intros (o & s & Ho & Hn); injection Ho as <- _; congruence.
      * intros f [<-|[]]; eexists; split; [reflexivity|].
        split; vm_compute; reflexivity.
      * split; [eauto|reflexivity].
      * intros f [].
    + eexists; split; [reflexivity|]; split; [simpl; lia|]; split.
      * split; [discriminate|].
        intros (o & s & Ho & _); injection Ho as Hcode _ _.
        rewrite Hcode in Hc; discriminate.
      * intros f [<-|[]]; eexists; split; [reflexivity|].
        split; vm_compute; reflexivity.
  - eexists; split; [reflexivity|]; split; [simpl; lia|]; split.
    + split; [discriminate|]; intros (o & s & Ho & _); discriminate.
    + intros f [<-|[]]; eexists; split; [reflexivity|].
      split; vm_compute; reflexivity.
  - eexists; split; [reflexivity|]; split; [simpl; lia|]; split.
    + split; [discriminate|]; intros (o & s & Ho & _); discriminate.
    + intros f [<-|[]]; eexists; split; [reflexivity|].
      split; vm_compute; reflexivity.
Qed.

(** ** The job as a sequence of attempts *)

Lemma scanWorker_ok_supported (env : Env) (job : Job) (w w' : World)
    (ret : JobReturn) :
  scanWorker job env w = (Ok ret, w') -> supported (scanType job) = true.
Proof.
  unfold scanWorker, try_catchM.
  destruct (scanWorker_try job env w) as [[r|e] w1] eqn:Ht.
  - intros _; unfold scanWorker_try in Ht; unfold bind at 1 in Ht.
    destruct (update_scans (scanId job) running mark_started env w)
      as [[[]|e] w2]; [|discriminate].
    unfold bind at 1 in Ht.
    destruct (executeScan (scanId job) (target job) (scanType job) env w2)
      as [[rows|e] w3] eqn:He; [|discriminate].
    apply executeScan_inv in He.
    destruct He as (pre & rest & _ & _ & [(_ & _ & Hsup)|(e & Hr & _)]);
      [exact Hsup|discriminate].
  - unfold scanWorker_catch, bind.
    destruct (update_scans (scanId job) error (mark_failed (message e)) env w1)
      as [[[]|e2] w2]; discriminate.
Qed.

Lemma job_events_cons (made : nat) (a : list Event)
    (later : list (list Event)) :
  later <> [] ->
  job_events made (a :: later)
  = a ++ [EvBackoff (backoff (S made))] ++ job_events (S made) later.
Proof. destruct later; [congruence|reflexivity]. Qed.

Lemma job_events_snoc (earlier : list (list Event)) (last : list Event) :
  forall made, exists before,
    job_events made (earlier ++ [last]) = before ++ last.
Proof.
  induction earlier as [|a earlier IH]; intros made; [now exists []|].
  change ((a :: earlier) ++ [last]) with (a :: (earlier ++ [last])).
  rewrite job_events_cons by (destruct earlier; discriminate).
  destruct (IH (S made)) as [before ->].
  exists (a ++ [EvBackoff (backoff (S made))] ++ before).
  now rewrite <- !app_assoc.
Qed.

Lemma job_events_flat_map (A : Type) (g : Event -> list A)
    (atts : list (list Event)) :
  (forall d, g (EvBackoff d) = []) ->
  forall made,
    flat_map g (job_events made atts) = flat_map (flat_map g) atts.
Proof.
  intros Hg; induction atts as [|a atts IH]; intros made; [reflexivity|].
  destruct atts as [|b atts]; [simpl; now rewrite app_nil_r|].
  rewrite job_events_cons by discriminate.
  rewrite !flat_map_app, IH.
  change (flat_map g [EvBackoff (backoff (S made))])
    with (g (EvBackoff (backoff (S made))) ++ []).
  now rewrite Hg.
Qed.

Lemma trace_emit (ev : Event) (w : World) : trace (emit ev w) = trace w ++ [ev].
Proof. reflexivity. Qed.

Section Attempts.
Variables (env : Env) (job : Job).

Lemma script_is_attempt (m : nat) :
  attempt_events job env (attempt_script job env m).
Proof.
  exists m, (attempt_script job env m), [], []; rewrite !app_nil_r; auto.
Qed.

(** A job is a sequence of at most [S n] attempts; all but the last failed;
    a completed job ends with a whole script. *)
Lemma retry_attempts (n : nat) :
  forall (made : nat) (w w' : World) (st : JobState),
  retry n made job env w = (st, w') ->
  exists earlier last,
    trace w' = trace w ++ job_events made (earlier ++ [last]) /\
    (length earlier <= n)%nat /\
    Forall (attempt_events job env) (earlier ++ [last]) /\
    match st with
    | completed ret =>
        supported (scanType job) = true /\
        exists m, last = attempt_script job env m /\
                  ret = MkJobReturn true (length (inserted last))
    | failed reason => length earlier = n
    end.
Proof.
  induction n as [|n IH]; intros made w w' st H; simpl in H;
    destruct (scanWorker job env w) as [[ret|e] w1] eqn:Hw;
    try (injection H as <- <-);
    try pose proof (scanWorker_ok_supported _ _ _ Hw) as Hsup;
    apply scanWorker_inv in Hw;
    destruct Hw as (pre & rest & tl & f & Hscript & Hstep & _ & _ & Hcase);
    destruct Hcase as [(Hr & -> & -> & _)|(e' & Hr & _ & _ & Htl)];
    try discriminate.
  - rewrite !app_nil_r in *; exists [], pre.
    split; [exact (Step_trace Hstep)|]. split; [simpl; lia|].
    split; [constructor; [rewrite <- Hscript; apply script_is_attempt|constructor]|].
    split; [exact Hsup|].
    exists (tool_count w); split; [auto|]; now injection Hr as ->.
  - exists [], (pre ++ tl).
    split; [exact (Step_trace Hstep)|]. split; [simpl; lia|].
    split; [|reflexivity].
    constructor; [|constructor].
    exists (tool_count w), pre, rest, tl; repeat split; auto.
    destruct Htl as [(-> & _)|(-> & _)]; auto.
  - rewrite !app_nil_r in *; exists [], pre.
    split; [exact (Step_trace Hstep)|]. split; [simpl; lia|].
    split; [constructor; [rewrite <- Hscript; apply script_is_attempt|constructor]|].
    split; [exact Hsup|].
    exists (tool_count w); split; [auto|]; now injection Hr as ->.
  - apply IH in H.
    destruct H as (earlier & last & Htr & Hlen & Hall & Hst).
    exists ((pre ++ tl) :: earlier), last.
    split.
    { rewrite Htr, trace_emit, (Step_trace Hstep).
      change (((pre ++ tl) :: earlier) ++ [last])
        with ((pre ++ tl) :: (earlier ++ [last])).
      rewrite job_events_cons by (destruct earlier; discriminate).
      now rewrite <- !app_assoc. }
    split; [simpl; lia|].
    split.
    { constructor; [|exact Hall].
      exists (tool_count w), pre, rest, tl; repeat split; auto.
      destruct Htl as [(-> & _)|(-> & _)]; auto. }
    destruct st; [exact Hst|simpl; lia].
Qed.

Lemma attempt_events_adapters (a : list Event) :
  attempt_events job env a ->
  exists later, adapters_invoked a ++ later = adapters_of (scanType job).
Proof.
  intros (m & pre & rest & tl & Hs & -> & Htl).
  exists (adapters_invoked rest).
  rewrite adapters_invoked_app, <- (attempt_prefix_adapters _ _ Hs).
  destruct Htl as [->| ->]; simpl; now rewrite app_nil_r.
Qed.

Lemma attempt_events_rows (a : list Event) :
  attempt_events job env a ->
  exists persisted waiting,
    produced a = persisted ++ waiting /\
    inserted a = map (persistedRow (scanId job)) persisted.
Proof.
  intros (m & pre & rest & tl & Hs & -> & Htl).
  destruct (attempt_prefix_inserted _ _ Hs) as (p & wt & Hp & Hi & _).
  exists p, wt; rewrite produced_app, inserted_app, Hp, Hi.
  destruct Htl as [->| ->]; simpl; now rewrite !app_nil_r.
Qed.

End Attempts.

Lemma flat_map_length_le (A B C : Type) (g : A -> list B) (h : A -> list C)
    (l : list A) :
  Forall (fun a => length (g a) <= length (h a))%nat l ->
  (length (flat_map g l) <= length (flat_map h l))%nat.
Proof.
  induction 1 as [|a l Ha _ IH]; simpl; [lia|].
  rewrite !length_app; lia.
Qed.

Lemma flat_map_length_bound (A B : Type) (g : A -> list B) (bound : nat)
    (l : list A) :
  Forall (fun a => length (g a) <= bound)%nat l ->
  (length (flat_map g l) <= length l * bound)%nat.
Proof.
  induction 1 as [|a l Ha _ IH]; simpl; [lia|].
  rewrite length_app; lia.
Qed.

Lemma update_rows_ids (sid : string) (f : ScanRow -> ScanRow)
    (rows : list ScanRow) :
  (forall r, id (f r) = id r) ->
  map id (update_rows sid f rows) = map id rows.
Proof.
  intros H; unfold update_rows; rewrite map_map; apply map_ext.
  intros r; destruct (String.eqb (id r) sid); auto.
Qed.

Lemma find_scan_other (sid other : string) (f : ScanRow -> ScanRow)
    (rows : list ScanRow) :
  (forall r, id (f r) = id r) -> other <> sid ->
  find_scan other (update_rows sid f rows) = find_scan other rows.
Proof.
  intros H Hne; unfold find_scan, update_rows.
  induction rows as [|r rows IH]; [reflexivity|].
  cbn [map find].
  destruct (String.eqb (id r) sid) eqn:E.
  - rewrite H.
    apply String.eqb_eq in E.
    assert (Hno : String.eqb (id r) other = false)
      by (apply String.eqb_neq; congruence).
    rewrite Hno; exact IH.
  - destruct (String.eqb (id r) other); [reflexivity|exact IH].
Qed.

(** X14: a job touches the row of its own scan only: table [scans] keeps
    its rows and their ids in place, the row of every other scan is found
    as it was, and every row with another id is still there, whatever fails
    and however often the job is retried. *)
Theorem job_leaves_other_scans_alone (job : Job) (env : Env) (w : World) :
  let final := snd (processJob job env w) in
  map id (scans final) = map id (scans w) /\
  length (scans final) = length (scans w) /\
  (forall other, other <> scanId job ->
     find_scan other (scans final) = find_scan other (scans w)) /\
  (forall row, In row (scans w) -> id row <> scanId job ->
     In row (scans final)).
Proof.
  cbv zeta.
  destruct (processJob job env w) as [st w'] eqn:H; cbn [snd].
  apply retry_inv in H.
  destruct H as (delta & f & _ & Hs & Hkeeps & _).
  assert (Hid : forall r, id (f r) = id r) by (intros r; apply Hkeeps).
  rewrite Hs; split; [now apply update_rows_ids|].
  split; [unfold update_rows; apply length_map|].
  split; [intros other Hne; now apply find_scan_other|].
  intros row Hin Hne; unfold update_rows; apply in_map_iff.
  exists row; split; [|exact Hin].
  destruct (String.eqb (id row) (scanId job)) eqn:E; [|reflexivity].
  apply String.eqb_eq in E; now elim Hne.
Qed.

(** X15: over a whole job with its retries, every row added to
    [scan_results] carries the scan id of the job, holds a raw finding that
    an adapter returned during the job, and holds the classification
    [analyzeVulnerability] gives for that finding; the job adds no more rows
    than its adapters returned findings. *)
Theorem rows_of_a_job (job : Job) (env : Env) (w : World) :
  exists delta,
    trace (snd (processJob job env w)) = trace w ++ delta /\
    scan_results (snd (processJob job env w))
    = scan_results w ++ inserted delta /\
    (forall row, In row (inserted delta) ->
       scan_id row = scanId job /\
       In (finding row) (produced delta) /\
       analyzeVulnerability (finding row) = Ok (ai_analysis row)) /\
    (length (inserted delta) <= length (produced delta))%nat.
Proof.
  destruct (processJob job env w) as [st w'] eqn:H; cbn [snd].
  pose proof H as H'; apply retry_inv in H'.
  destruct H' as (delta & f & Hstep & _).
  apply retry_attempts in H.
  destruct H as (earlier & last & Htr & _ & Hall & _).
  assert (Hd : delta = job_events 0 (earlier ++ [last])).
  { apply Step_trace in Hstep; rewrite Hstep in Htr.
    now apply app_inv_head in Htr. }
  exists delta; split; [exact (Step_trace Hstep)|].
  split; [apply Hstep|].
  assert (Hi : inserted delta = flat_map inserted (earlier ++ [last]))
    by (rewrite Hd; now apply job_events_flat_map).
  assert (Hp : produced delta = flat_map produced (earlier ++ [last]))
    by (rewrite Hd; now apply job_events_flat_map).
  rewrite Hi, Hp; split.
  - intros row Hin; apply in_flat_map in Hin.
    destruct Hin as (a & Ha & Hin).
    rewrite Forall_forall in Hall.
    destruct (attempt_events_rows (Hall a Ha))
      as (persisted & waiting & Hprod & Hins).
    rewrite Hins in Hin; apply in_map_iff in Hin.
    destruct Hin as (x & <- & Hx); split; [reflexivity|].
    split; [|apply analyzeVulnerability_classify].
    apply in_flat_map; exists a; split; [exact Ha|].
    rewrite Hprod; apply in_or_app; now left.
  - apply flat_map_length_le.
    rewrite Forall_forall in *; intros a Ha.
    destruct (attempt_events_rows (Hall a Ha))
      as (persisted & waiting & -> & ->).
    rewrite length_map, length_app; lia.
Qed.

(** X16: a job invokes only the adapters its scan type selects (so the ZAP
    adapter runs for scan type zap alone, and a job of an unsupported type
    runs none), and over its attempts it makes at most three times as many
    invocations as the scan type has adapters. *)
Theorem job_invokes_the_adapters_of_its_scan_type
    (job : Job) (env : Env) (w : World) :
  exists delta,
    trace (snd (processJob job env w)) = trace w ++ delta /\
    (forall tool, In tool (adapters_invoked delta) ->
                  In tool (adapters_of (scanType job))) /\
    (length (adapters_invoked delta)
     <= 3 * length (adapters_of (scanType job)))%nat /\
    (In zap (adapters_invoked delta) -> scanType job = "zap"%string) /\
    (supported (scanType job) = false -> adapters_invoked delta = []).
Proof.
  destruct (processJob job env w) as [st w'] eqn:H; cbn [snd].
  apply retry_attempts in H.
  destruct H as (earlier & last & Htr & Hlen & Hall & _).
  exists (job_events 0 (earlier ++ [last])); split; [exact Htr|].
  rewrite (@job_events_flat_map _ _ (earlier ++ [last]) (fun d => eq_refl) 0
           : adapters_invoked (job_events 0 (earlier ++ [last]))
             = flat_map adapters_invoked (earlier ++ [last])).
  assert (Hin : forall tool,
            In tool (flat_map adapters_invoked (earlier ++ [last])) ->
            In tool (adapters_of (scanType job))).
  { intros tool Hin; apply in_flat_map in Hin.
    destruct Hin as (a & Ha & Hin).
    rewrite Forall_forall in Hall.
    destruct (attempt_events_adapters (Hall a Ha)) as [later <-].
    apply in_or_app; now left. }
  split; [exact Hin|]. split.
  - apply Nat.le_trans
      with (length (earlier ++ [last]) * length (adapters_of (scanType job)))%nat.
    + apply flat_map_length_bound.
      rewrite Forall_forall in *; intros a Ha.
      destruct (attempt_events_adapters (Hall a Ha)) as [later <-].
      rewrite length_app; lia.
    + rewrite length_app; simpl length.
      apply Nat.mul_le_mono_r; simpl in Hlen; lia.
  - split.
    + intros Hz; apply Hin in Hz; unfold adapters_of in Hz.
      destruct (String.eqb (scanType job) "nmap");
        [simpl in Hz; intuition discriminate|].
      destruct (String.eqb (scanType job) "nikto");
        [simpl in Hz; intuition discriminate|].
      destruct (String.eqb (scanType job) "sqlmap");
        [simpl in Hz; intuition discriminate|].
      destruct (String.eqb (scanType job) "zap") eqn:E;
        [now apply String.eqb_eq in E|].
      destruct (String.eqb (scanType job) "comprehensive");
        simpl in Hz; intuition discriminate.
    + intros Hno.
      destruct (flat_map adapters_invoked (earlier ++ [last]))
        as [|tool l]; [reflexivity|exfalso].
      specialize (Hin tool (or_introl eq_refl)).
      unfold supported in Hno; unfold adapters_of in Hin.
      destruct (String.eqb (scanType job) "nmap"),
        (String.eqb (scanType job) "nikto"),
        (String.eqb (scanType job) "sqlmap"),
        (String.eqb (scanType job) "zap"),
        (String.eqb (scanType job) "comprehensive");
        try discriminate; destruct Hin.
Qed.

(** X17: a job that completes ends with one whole attempt: its scan type is
    supported, the last attempt invoked all the adapters of the scan type,
    reported every milestone, wrote running and then complete, persisted a
    row for each finding it got, and the job's return value counts the
    findings of that last attempt alone, so never more than the rows the job
    added. *)
Theorem completed_job_ends_with_a_whole_attempt
    (job : Job) (env : Env) (w w' : World) (ret : JobReturn) :
  processJob job env w = (completed ret, w') ->
  supported (scanType job) = true /\
  success ret = true /\
  exists before last,
    trace w' = trace w ++ before ++ last /\
    adapters_invoked last = adapters_of (scanType job) /\
    progress_reports last = milestones (scanType job) /\
    status_writes last = [running; complete] /\
    inserted last = map (persistedRow (scanId job)) (produced last) /\
    vulnerabilities ret = length (produced last) /\
    scan_results w' = scan_results w ++ inserted before ++ inserted last.
Proof.
  intros H; pose proof H as H'; apply retry_inv in H'.
  destruct H' as (delta & f & Hstep & _).
  apply retry_attempts in H.
  destruct H as (earlier & last & Htr & _ & _ & Hsup & m & Hlast & ->).
  destruct (job_events_snoc earlier last 0) as [before Hb].
  rewrite Hb in Htr.
  assert (Hd : delta = before ++ last).
  { apply Step_trace in Hstep; rewrite Hstep in Htr.
    now apply app_inv_head in Htr. }
  assert (Hscript : attempt_script job env m = last ++ [])
    by (now rewrite app_nil_r).
  destruct (attempt_prefix_inserted _ _ Hscript)
    as (persisted & waiting & Hprod & Hins & Hall).
  rewrite (Hall eq_refl), app_nil_r in Hprod; subst persisted.
  split; [exact Hsup|]. split; [reflexivity|].
  exists before, last; split; [exact Htr|].
  split.
  { pose proof (attempt_prefix_adapters _ _ Hscript) as Ha.
    simpl in Ha; now rewrite app_nil_r in Ha. }
  split.
  { pose proof (attempt_prefix_progress _ _ Hscript) as Hp.
    simpl in Hp; now rewrite app_nil_r in Hp. }
  split; [exact (proj1 (attempt_prefix_status _ _ Hscript) eq_refl)|].
  split; [exact Hins|].
  split; [simpl; now rewrite Hins, length_map|].
  destruct Hstep as (_ & -> & _); now rewrite Hd, inserted_app.
Qed.

Lemma completed_job_ends_with_a_whole_attempt_witness :
  exists before last,
    trace (snd (processJob nmap_job (outage [3%nat]) store0))
    = trace store0 ++ before ++ last /\
    adapters_invoked last = [nmap] /\
    vulnerabilities (MkJobReturn true 2) = length (produced last).
Proof.
  destruct (@completed_job_ends_with_a_whole_attempt
              nmap_job (outage [3%nat]) store0
              (snd (processJob nmap_job (outage [3%nat]) store0))
              (MkJobReturn true 2))
    as (_ & _ & before & last & Htr & Ha & _ & _ & _ & Hv & _).
  - vm_compute; reflexivity.
  - exists before, last; auto.
Defined.

(** X18: when no I/O operation rejects, a job of a supported scan type
    completes at its first attempt, whatever the tools do: the job's events
    are those of one whole script, no retry is scheduled, the status goes
    running then complete, each adapter of the scan type is invoked once,
    one row is stored for each finding, and the return value counts them. *)
Theorem reliable_job_completes_at_first_attempt
    (job : Job) (env : Env) (w : World) :
  reliable env -> supported (scanType job) = true ->
  let script := attempt_script job env (tool_count w) in
  exists w',
    processJob job env w
    = (completed (MkJobReturn true (length (produced script))), w') /\
    trace w' = trace w ++ script /\
    backoffs script = [] /\
    status_writes script = [running; complete] /\
    adapters_invoked script = adapters_of (scanType job) /\
    scan_results w'
    = scan_results w ++ map (persistedRow (scanId job)) (produced script).
Proof.
  intros Hrel Hsup script.
  unfold processJob; simpl retry.
  destruct (scanWorker job env w) as [r w1] eqn:Hw.
  destruct (@reliable_attempt_succeeds job env w w1 r Hrel Hsup Hw) as [ret ->].
  apply scanWorker_inv in Hw.
  destruct Hw as (pre & rest & tl & f & Hscript & Hstep & _ & _ & Hcase).
  destruct Hcase as [(Hr & -> & -> & _)|(e & Hr & _)]; [|discriminate].
  injection Hr as ->.
  pose proof (attempt_prefix_backoffs _ _ Hscript) as Hb.
  pose proof (proj1 (attempt_prefix_status _ _ Hscript) eq_refl) as Hs.
  pose proof (attempt_prefix_adapters _ _ Hscript) as Ha.
  destruct (attempt_prefix_inserted _ _ Hscript)
    as (persisted & waiting & Hprod & Hins & Hall).
  rewrite (Hall eq_refl) in Hprod.
  simpl in Ha; rewrite !app_nil_r in *.
  fold script in Hscript; subst pre persisted.
  exists w1; rewrite Hins, length_map.
  split; [reflexivity|]. split; [exact (Step_trace Hstep)|].
  split; [exact Hb|]. split; [exact Hs|]. split; [exact Ha|].
  destruct Hstep as (_ & -> & _); now rewrite Hins.
Qed.

Lemma reliable_job_completes_at_first_attempt_witness :
  exists w',
    processJob comprehensive_job calm store0
    = (completed (MkJobReturn true 5), w') /\
    length (scan_results w') = 5%nat.
Proof.
  destruct (@reliable_job_completes_at_first_attempt
              comprehensive_job calm store0)
    as (w' & Hjob & _ & _ & _ & _ & Hrows).
  - intros n; reflexivity.
  - reflexivity.
  - exists w'; split; [exact Hjob|].
    rewrite Hrows; vm_compute; reflexivity.
Defined.



Lemma unsupported_attempt (job : Job) (env : Env) (w : World) :
  reliable env -> supported (scanType job) = false ->
  let e := MkError ("Unsupported scan type: " ++ scanType job) in
  exists w1 f,
    scanWorker job env w = (Throw e, w1) /\
    trace w1 = trace w ++ [EvStatus (scanId job) running; EvProgress 10;
                           EvStatus (scanId job) error] /\
    scan_results w1 = scan_results w /\
    tool_count w1 = tool_count w /\
    scans w1 = update_rows (scanId job) f (scans w) /\
    forall row, id (f row) = id row /\ status (f row) = error /\
                error_message (f row) = Some (message e).
Proof.
  intros Hrel Hsup e.
  unfold supported in Hsup.
  apply orb_false_iff in Hsup; destruct Hsup as [Hsup E5].
  apply orb_false_iff in Hsup; destruct Hsup as [Hsup E4].
  apply orb_false_iff in Hsup; destruct Hsup as [Hsup E3].
  apply orb_false_iff in Hsup; destruct Hsup as [E1 E2].
  unfold scanWorker, try_catchM, scanWorker_try, scanWorker_catch,
    executeScan, dispatch, update_scans, updateProgress, bind, io, throw.
  rewrite E1, E2, E3, E4, E5.
  cbn [io_count]; rewrite !Hrel.
  cbn [io_count emit scans scan_results job_progress tool_count log].
  rewrite ?Hrel.
  cbn [io_count emit scans scan_results job_progress tool_count log].
  eexists _, _; split; [reflexivity|].
  split; [unfold trace; simpl; now rewrite <- !app_assoc|].
  split; [reflexivity|]. split; [reflexivity|].
  split; [cbn [emit scans]; rewrite update_rows_compose; [reflexivity|auto]|].
  intros row; simpl; auto.
Qed.

(** X19: when no I/O operation rejects, a job whose scan type is outside the
    switch of [executeScan] fails after three attempts with the reason
    Unsupported scan type followed by the type: each attempt sets the scan
    to running, reports progress 10 and records the error, the retries wait
    2000 ms and 4000 ms, no adapter is invoked, no result row is stored, and
    the scan is left with status error and that message. *)
Theorem unsupported_scan_type_fails_the_job
    (job : Job) (env : Env) (w : World) :
  reliable env -> supported (scanType job) = false ->
  let reason := ("Unsupported scan type: " ++ scanType job)%string in
  exists w',
    processJob job env w = (failed reason, w') /\
    trace w' = trace w ++ unsupported_trace (scanId job) /\
    scan_results w' = scan_results w /\
    tool_count w' = tool_count w /\
    forall row0, find_scan (scanId job) (scans w) = Some row0 ->
      exists row, find_scan (scanId job) (scans w') = Some row /\
                  status row = error /\ error_message row = Some reason.
Proof.
  intros Hrel Hsup reason.
  unfold processJob; simpl retry.
  destruct (unsupported_attempt job w Hrel Hsup)
    as (w1 & f1 & -> & T1 & R1 & C1 & S1 & F1).
  set (v1 := emit (EvBackoff (backoff 1)) w1).
  destruct (unsupported_attempt job v1 Hrel Hsup)
    as (w2 & f2 & -> & T2 & R2 & C2 & S2 & F2).
  set (v2 := emit (EvBackoff (backoff 2)) w2).
  destruct (unsupported_attempt job v2 Hrel Hsup)
    as (w3 & f3 & -> & T3 & R3 & C3 & S3 & F3).
  exists w3; split; [reflexivity|].
  split.
  { rewrite T3; unfold v2; rewrite trace_emit, T2; unfold v1.
    rewrite trace_emit, T1, <- !app_assoc; reflexivity. }
  split; [rewrite R3; simpl; rewrite R2; simpl; exact R1|].
  split; [rewrite C3; simpl; rewrite C2; simpl; exact C1|].
  intros row0 Hrow.
  exists (f3 (f2 (f1 row0))).
  rewrite S3; simpl scans; rewrite S2; simpl scans; rewrite S1.
  rewrite !find_scan_update_rows, Hrow
    by (intros r; first [apply F1|apply F2|apply F3]).
  split; [reflexivity|split; apply F3].
Qed.

Lemma unsupported_scan_type_fails_the_job_witness :
  exists w',
    processJob ftp_job calm store0 = (failed "Unsupported scan type: ftp", w') /\
    trace w' = unsupported_trace "scan-1" /\
    scan_results w' = [].
Proof.
  destruct (@unsupported_scan_type_fails_the_job ftp_job calm store0)
    as (w' & Hjob & Htr & Hrows & _).
  - intros n; reflexivity.
  - reflexivity.
  - exists w'; auto.
Defined.
